(** * Bit-level signal accessors of the CAN matrix (ac_can.c / ac_can.h)

    The C file is a flat list of 57 [Get_<signal>] / [Set_<signal>] pairs.
    Every getter is the same statement sequence and so is every setter; the
    functions differ only in the literals they contain (message identifier,
    loop bound, the two constants of the bit walk, scale, offset and the
    two range bounds).  The embedding keeps one definition of the getter
    body and one of the setter body, parameterised by a record holding those
    literals exactly as they are spelled in the source, and instantiates it
    once per signal.

    Integer data are [Z] with the wrap-around of each C type written out.
    [float] and [double] are IEEE-754 binary32 and binary64 values, computed
    with the executable specification of [SpecFloat]; C's usual arithmetic
    conversions decide in which format each operator is evaluated.  The
    target is assumed to evaluate every floating-point operator in the
    format of its type, and [unsigned long] is taken to be 64 bits wide
    (with 32 bits the two macros give the same results on the operands that
    occur here). *)

From Stdlib Require Import ZArith List Finite Bool Lia.
From Stdlib Require Import Floats.SpecFloat.
Import ListNotations.

Local Open Scope Z_scope.

(** ** Integer types *)

Definition to_uint8 (z : Z) : Z := z mod 2 ^ 8.
Definition to_uint64 (z : Z) : Z := z mod 2 ^ 64.

(** [~x] on an [unsigned long]. *)
Definition ulong_not (x : Z) : Z := to_uint64 (Z.lnot x).

(** ** The two macros

    [#define GET_BIT(data, pos) (((data) >> (pos)) & 0x01)] *)
Definition GET_BIT (data pos : Z) : Z := Z.land (Z.shiftr data pos) 1.

(** [#define SET_BIT(data, pos, value)
       ((data) = ((data) & ~(1UL << (pos))) | ((value) << (pos)))]

    [SET_BIT_rhs] is the value of the right-hand side, an [unsigned long];
    the assignment then converts it to the type of the lvalue [data]:
    [uint64_t] for the raw accumulator of a getter, [uint8_t] for a payload
    byte in a setter. *)
Definition SET_BIT_rhs (data pos value : Z) : Z :=
  Z.lor (Z.land data (ulong_not (to_uint64 (Z.shiftl 1 pos))))
        (Z.shiftl value pos).

(** The same right-hand side on a target whose [unsigned long] is 32 bits
    wide: the mask [~(1UL << pos)] is then a 32-bit value.  For the
    operands that occur in the accessors it is the same number
    ([SET_BIT_rhs32_eq]). *)
Definition SET_BIT_rhs32 (data pos value : Z) : Z :=
  Z.lor (Z.land data (Z.lnot (Z.shiftl 1 pos mod 2 ^ 32) mod 2 ^ 32))
        (Z.shiftl value pos).

Definition SET_BIT_u64 (data pos value : Z) : Z :=
  to_uint64 (SET_BIT_rhs data pos value).

Definition SET_BIT_u8 (data pos value : Z) : Z :=
  to_uint8 (SET_BIT_rhs data pos value).

(** ** Floating point

    [float] is binary32 (24-bit significand, [emax = 128]); [double] is
    binary64 (53-bit significand, [emax = 1024]).  Values of both formats
    are [spec_float]s kept in the canonical form of their format, which is
    what [SFcompare] expects. *)

Module F32.
Definition prec := 24.
Definition emax := 128.
Definition of_Z (n : Z) : spec_float := binary_normalize prec emax n 0 false.
Definition sub := SFsub prec emax.
Definition add := SFadd prec emax.
Definition mul := SFmul prec emax.
Definition div := SFdiv prec emax.
(** The [spec_float]s that are values of the format. *)
Definition valid (x : spec_float) : bool := valid_binary prec emax x.
(** Conversion of a [double] to [float], rounding to nearest even. *)
Definition of_double (x : spec_float) : spec_float :=
  match x with
  | S754_finite s m e => binary_normalize prec emax (cond_Zopp s (Zpos m)) e s
  | _ => x
  end.
End F32.

Module F64.
Definition prec := 53.
Definition emax := 1024.
Definition of_Z (n : Z) : spec_float := binary_normalize prec emax n 0 false.
Definition sub := SFsub prec emax.
Definition add := SFadd prec emax.
Definition mul := SFmul prec emax.
Definition div := SFdiv prec emax.
(** Promotion of a [float] to [double]; exact. *)
Definition of_float (x : spec_float) : spec_float :=
  match x with
  | S754_finite s m e => binary_normalize prec emax (cond_Zopp s (Zpos m)) e s
  | _ => x
  end.
(** A decimal constant [n / 10^k] of the source text, correctly rounded. *)
Definition of_decimal (n : Z) (k : nat) : spec_float :=
  div (of_Z n) (of_Z (10 ^ Z.of_nat k)).
End F64.

(** [double round(double)] of <math.h>: nearest integer, halfway cases away
    from zero; the sign of a zero result is the sign of the argument. *)
Definition c_round (x : spec_float) : spec_float :=
  match x with
  | S754_finite s m e =>
      if 0 <=? e then x
      else
        let q := (Zpos m + 2 ^ (- e - 1)) / 2 ^ (- e) in
        if q =? 0 then S754_zero s
        else binary_normalize F64.prec F64.emax (cond_Zopp s q) 0 s
  | _ => x
  end.

(** [(uint64_t) x] for a [double] [x]: the fractional part is discarded;
    the conversion is undefined ([None]) when the integral part is not a
    value of [uint64_t], and for infinities and NaN. *)
Definition double_to_uint64 (x : spec_float) : option Z :=
  match x with
  | S754_zero _ => Some 0
  | S754_finite s m e =>
      let t := if 0 <=? e then Zpos m * 2 ^ e else Zpos m / 2 ^ (- e) in
      if t =? 0 then Some 0
      else if s then None
      else if t <? 2 ^ 64 then Some t else None
  | _ => None
  end.

(** ** Operands and the usual arithmetic conversions

    The four operand types that occur in the accessors. *)
Inductive cval : Type :=
| Vint (n : Z)
| Vu64 (n : Z)
| Vfloat (x : spec_float)
| Vdouble (x : spec_float).

(** Conversions of an operand to the type in which an operator is
    evaluated.  No floating-point operand is ever converted to
    [uint64_t] by the usual arithmetic conversions; that case of [as_u64]
    is never reached. *)
Definition as_u64 (v : cval) : Z :=
  match v with
  | Vint n => to_uint64 n
  | Vu64 n => n
  | Vfloat _ | Vdouble _ => 0
  end.

Definition as_float (v : cval) : spec_float :=
  match v with
  | Vint n | Vu64 n => F32.of_Z n
  | Vfloat x => x
  | Vdouble x => F32.of_double x
  end.

Definition as_double (v : cval) : spec_float :=
  match v with
  | Vint n | Vu64 n => F64.of_Z n
  | Vfloat x => F64.of_float x
  | Vdouble x => x
  end.

(** An arithmetic operator is evaluated in [double] if an operand is a
    [double], else in [float] if one is a [float], else in [uint64_t] if
    one is a [uint64_t], else in [int]. *)
Definition arith (fint fu64 : Z -> Z -> Z)
    (ff32 ff64 : spec_float -> spec_float -> spec_float) (a b : cval) : cval :=
  match a, b with
  | Vdouble _, _ | _, Vdouble _ => Vdouble (ff64 (as_double a) (as_double b))
  | Vfloat _, _ | _, Vfloat _ => Vfloat (ff32 (as_float a) (as_float b))
  | Vu64 _, _ | _, Vu64 _ => Vu64 (fu64 (as_u64 a) (as_u64 b))
  | Vint x, Vint y => Vint (fint x y)
  end.

Definition u64_op (f : Z -> Z -> Z) (x y : Z) : Z := to_uint64 (f x y).

Definition c_add := arith Z.add (u64_op Z.add) F32.add F64.add.
Definition c_sub := arith Z.sub (u64_op Z.sub) F32.sub F64.sub.
Definition c_mul := arith Z.mul (u64_op Z.mul) F32.mul F64.mul.
Definition c_div := arith Z.quot (u64_op Z.quot) F32.div F64.div.

Definition compare_with (fint : Z -> Z -> bool)
    (ffp : spec_float -> spec_float -> bool) (a b : cval) : bool :=
  match a, b with
  | Vdouble _, _ | _, Vdouble _ => ffp (as_double a) (as_double b)
  | Vfloat _, _ | _, Vfloat _ => ffp (as_float a) (as_float b)
  | Vu64 _, _ | _, Vu64 _ => fint (as_u64 a) (as_u64 b)
  | Vint x, Vint y => fint x y
  end.

Definition c_lt := compare_with Z.ltb SFltb.
Definition c_gt (a b : cval) := c_lt b a.
Definition c_le := compare_with Z.leb SFleb.

(** ** Frames *)

(** [typedef struct { uint32_t id; uint8_t dlc; uint8_t data[8]; } CAN_Frame;] *)
Record CAN_Frame : Type := mkFrame {
  id : Z;
  dlc : Z;
  data : list Z
}.

Definition byte_ok (b : Z) : Prop := 0 <= b < 2 ^ 8.

(** The values a [CAN_Frame] object can hold. *)
Record wf_frame (f : CAN_Frame) : Prop := {
  wf_id : 0 <= id f < 2 ^ 32;
  wf_dlc : 0 <= dlc f < 2 ^ 8;
  wf_len : length (data f) = 8%nat;
  wf_bytes : Forall byte_ok (data f)
}.

(** [data[k]] read and written.  The array has eight elements; the
    accessors index it only with [byte_pos], which stays within [0..7] for
    every signal of the file (see [signal_table_in_bounds]); outside the
    array the read gives 0 and the write does nothing. *)
Definition load (d : list Z) (k : Z) : Z :=
  if (0 <=? k) && (k <? Z.of_nat (length d)) then nth (Z.to_nat k) d 0 else 0.

Fixpoint replace_nth (n : nat) (v : Z) (d : list Z) : list Z :=
  match d, n with
  | [], _ => []
  | _ :: t, O => v :: t
  | h :: t, S n' => h :: replace_nth n' v t
  end.

Definition store (d : list Z) (k : Z) (v : Z) : list Z :=
  if (0 <=? k) && (k <? Z.of_nat (length d)) then replace_nth (Z.to_nat k) v d
  else d.

(** ** Signals *)

(** A numeric constant as it is spelled in the source: an [int] constant
    such as [1] or [-48], or a decimal [double] constant such as [0.25],
    kept as its digits and the number of digits after the point. *)
Inductive literal : Type :=
| Lint (n : Z)
| Ldec (digits : Z) (places : nat).

Definition eval_lit (l : literal) : cval :=
  match l with
  | Lint n => Vint n
  | Ldec n k => Vdouble (F64.of_decimal n k)
  end.

(** The constants of one getter/setter pair. *)
Record signal : Type := mkSignal {
  message_id : Z;
  bit_length : Z;
  base_byte : Z;
  base_bit : Z;
  scale : literal;
  offset : literal;
  sig_min : literal;
  sig_max : literal
}.

Definition EMS3_F_EngineSpeed : signal :=
  {| message_id := 0x120; bit_length := 1; base_byte := 1; base_bit := 6;
     scale := Lint 1; offset := Lint 0; sig_min := Lint 0; sig_max := Lint 1 |}.
Definition EMS3_N_EngineSpeed : signal :=
  {| message_id := 0x120; bit_length := 16; base_byte := 4; base_bit := 7;
     scale := Ldec 25 2; offset := Lint 0; sig_min := Lint 0; sig_max := Ldec 1638375 2 |}.
Definition BR1_N_VehicleSpeed : signal :=
  {| message_id := 0x130; bit_length := 15; base_byte := 4; base_bit := 6;
     scale := Ldec 1 2; offset := Lint 0; sig_min := Lint 0; sig_max := Ldec 32766 2 |}.
Definition PEPS1_St_RemoteControlSt : signal :=
  {| message_id := 0x166; bit_length := 1; base_byte := 7; base_bit := 5;
     scale := Lint 1; offset := Lint 0; sig_min := Lint 0; sig_max := Lint 1 |}.
Definition EMS2_St_ACON : signal :=
  {| message_id := 0x320; bit_length := 1; base_byte := 1; base_bit := 5;
     scale := Lint 1; offset := Lint 0; sig_min := Lint 0; sig_max := Lint 1 |}.
Definition EMS2_F_EngineTemp : signal :=
  {| message_id := 0x320; bit_length := 1; base_byte := 1; base_bit := 7;
     scale := Lint 1; offset := Lint 0; sig_min := Lint 0; sig_max := Lint 1 |}.
Definition EMS2_N_EngineTemp : signal :=
  {| message_id := 0x320; bit_length := 8; base_byte := 2; base_bit := 7;
     scale := Ldec 75 2; offset := Lint (-48); sig_min := Lint (-48); sig_max := Ldec 1425 1 |}.
Definition EMS11_N_SoakTime : signal :=
  {| message_id := 0x322; bit_length := 16; base_byte := 2; base_bit := 7;
     scale := Lint 1; offset := Lint 0; sig_min := Lint 0; sig_max := Lint 2047 |}.
Definition TCM1_N_SLP : signal :=
  {| message_id := 0x326; bit_length := 4; base_byte := 2; base_bit := 7;
     scale := Lint 1; offset := Lint 0; sig_min := Lint 0; sig_max := Lint 15 |}.
Definition AUDIO7_St_FlowModeVoiceControl : signal :=
  {| message_id := 0x347; bit_length := 3; base_byte := 2; base_bit := 2;
     scale := Lint 1; offset := Lint 0; sig_min := Lint 0; sig_max := Lint 7 |}.
Definition AUDIO7_St_SetTempVoiceControl_L : signal :=
  {| message_id := 0x347; bit_length := 5; base_byte := 2; base_bit := 7;
     scale := Ldec 5 1; offset := Lint 18; sig_min := Lint 18; sig_max := Lint 32 |}.
Definition AUDIO7_S_FrontDefrostVoiceControl : signal :=
  {| message_id := 0x347; bit_length := 2; base_byte := 3; base_bit := 4;
     scale := Lint 1; offset := Lint 0; sig_min := Lint 0; sig_max := Lint 3 |}.
Definition AUDIO7_S_AutoVoiceControl : signal :=
  {| message_id := 0x347; bit_length := 2; base_byte := 3; base_bit := 6;
     scale := Lint 1; offset := Lint 0; sig_min := Lint 0; sig_max := Lint 3 |}.
Definition AUDIO7_S_AirCirculateVoiceControl : signal :=
  {| message_id := 0x347; bit_length := 2; base_byte := 4; base_bit := 1;
     scale := Lint 1; offset := Lint 0; sig_min := Lint 0; sig_max := Lint 3 |}.
Definition AUDIO7_S_ACCompresSwitchVoiceControl : signal :=
  {| message_id := 0x347; bit_length := 2; base_byte := 4; base_bit := 3;
     scale := Lint 1; offset := Lint 0; sig_min := Lint 0; sig_max := Lint 3 |}.
Definition AUDIO7_S_CLMWorkVoiceControl : signal :=
  {| message_id := 0x347; bit_length := 2; base_byte := 4; base_bit := 5;
     scale := Lint 1; offset := Lint 0; sig_min := Lint 0; sig_max := Lint 3 |}.
Definition AUDIO7_S_SYNC : signal :=
  {| message_id := 0x347; bit_length := 2; base_byte := 4; base_bit := 7;
     scale := Lint 1; offset := Lint 0; sig_min := Lint 0; sig_max := Lint 3 |}.
Definition AUDIO7_St_BlowerSpdSetVoiceControl : signal :=
  {| message_id := 0x347; bit_length := 4; base_byte := 5; base_bit := 3;
     scale := Lint 1; offset := Lint 0; sig_min := Lint 0; sig_max := Lint 15 |}.
Definition AUDIO7_S_RearDefrostVoiceControl : signal :=
  {| message_id := 0x347; bit_length := 2; base_byte := 6; base_bit := 1;
     scale := Lint 1; offset := Lint 0; sig_min := Lint 0; sig_max := Lint 3 |}.
Definition AUDIO7_St_SetTempVoiceControl_R : signal :=
  {| message_id := 0x347; bit_length := 5; base_byte := 6; base_bit := 6;
     scale := Ldec 5 1; offset := Lint 18; sig_min := Lint 18; sig_max := Lint 32 |}.
Definition BCM1_St_ReverseGear : signal :=
  {| message_id := 0x363; bit_length := 1; base_byte := 4; base_bit := 4;
     scale := Lint 1; offset := Lint 0; sig_min := Lint 0; sig_max := Lint 1 |}.
Definition BCM1_F_ReverseGear : signal :=
  {| message_id := 0x363; bit_length := 1; base_byte := 4; base_bit := 5;
     scale := Lint 1; offset := Lint 0; sig_min := Lint 0; sig_max := Lint 1 |}.
Definition BCM1_N_PM25Value : signal :=
  {| message_id := 0x363; bit_length := 10; base_byte := 6; base_bit := 1;
     scale := Lint 1; offset := Lint 0; sig_min := Lint 0; sig_max := Lint 999 |}.
Definition AC1_Checksum : signal :=
  {| message_id := 0x36C; bit_length := 8; base_byte := 0; base_bit := 7;
     scale := Lint 1; offset := Lint 0; sig_min := Lint 0; sig_max := Lint 255 |}.
Definition AC1_S_AC : signal :=
  {| message_id := 0x36C; bit_length := 1; base_byte := 1; base_bit := 7;
     scale := Lint 1; offset := Lint 0; sig_min := Lint 0; sig_max := Lint 1 |}.
Definition AC1_St_Blower : signal :=
  {| message_id := 0x36C; bit_length := 4; base_byte := 4; base_bit := 3;
     scale := Lint 1; offset := Lint 0; sig_min := Lint 0; sig_max := Lint 15 |}.
Definition AC1_H_L_PRESS_Sta : signal :=
  {| message_id := 0x36C; bit_length := 2; base_byte := 5; base_bit := 1;
     scale := Lint 1; offset := Lint 0; sig_min := Lint 0; sig_max := Lint 3 |}.
Definition AC1_St_AirCirculate : signal :=
  {| message_id := 0x36C; bit_length := 2; base_byte := 6; base_bit := 4;
     scale := Lint 1; offset := Lint 0; sig_min := Lint 0; sig_max := Lint 3 |}.
Definition AC1_MID_PRESS_Status : signal :=
  {| message_id := 0x36C; bit_length := 1; base_byte := 6; base_bit := 7;
     scale := Lint 1; offset := Lint 0; sig_min := Lint 0; sig_max := Lint 1 |}.
Definition AC1_St_FlowMode : signal :=
  {| message_id := 0x36C; bit_length := 3; base_byte := 7; base_bit := 2;
     scale := Lint 1; offset := Lint 0; sig_min := Lint 0; sig_max := Lint 7 |}.
Definition AUDIO4_S_PM25AirClean : signal :=
  {| message_id := 0x374; bit_length := 2; base_byte := 1; base_bit := 5;
     scale := Lint 1; offset := Lint 0; sig_min := Lint 0; sig_max := Lint 3 |}.
Definition AUDIO4_S_SetTempDown_R : signal :=
  {| message_id := 0x374; bit_length := 1; base_byte := 1; base_bit := 7;
     scale := Lint 1; offset := Lint 0; sig_min := Lint 0; sig_max := Lint 1 |}.
Definition AUDIO4_S_SetTempUp_L : signal :=
  {| message_id := 0x374; bit_length := 1; base_byte := 2; base_bit := 0;
     scale := Lint 1; offset := Lint 0; sig_min := Lint 0; sig_max := Lint 1 |}.
Definition AUDIO4_S_SetTempDown_L : signal :=
  {| message_id := 0x374; bit_length := 1; base_byte := 2; base_bit := 1;
     scale := Lint 1; offset := Lint 0; sig_min := Lint 0; sig_max := Lint 1 |}.
Definition AUDIO4_S_SYNC : signal :=
  {| message_id := 0x374; bit_length := 1; base_byte := 2; base_bit := 2;
     scale := Lint 1; offset := Lint 0; sig_min := Lint 0; sig_max := Lint 1 |}.
Definition AUDIO4_St_SetTemp_L : signal :=
  {| message_id := 0x374; bit_length := 5; base_byte := 2; base_bit := 7;
     scale := Ldec 5 1; offset := Lint 18; sig_min := Lint 18; sig_max := Lint 32 |}.
Definition AUDIO4_S_TempLevelElectricAC : signal :=
  {| message_id := 0x374; bit_length := 5; base_byte := 3; base_bit := 5;
     scale := Lint 1; offset := Lint 0; sig_min := Lint 0; sig_max := Lint 16 |}.
Definition AUDIO4_St_SetBlower : signal :=
  {| message_id := 0x374; bit_length := 4; base_byte := 4; base_bit := 5;
     scale := Lint 1; offset := Lint 0; sig_min := Lint 0; sig_max := Lint 15 |}.
Definition AUDIO4_S_NegativeIon : signal :=
  {| message_id := 0x374; bit_length := 1; base_byte := 5; base_bit := 1;
     scale := Lint 1; offset := Lint 0; sig_min := Lint 0; sig_max := Lint 1 |}.
Definition AUDIO4_S_Auto : signal :=
  {| message_id := 0x374; bit_length := 1; base_byte := 5; base_bit := 2;
     scale := Lint 1; offset := Lint 0; sig_min := Lint 0; sig_max := Lint 1 |}.
Definition AUDIO4_S_AirCirculate : signal :=
  {| message_id := 0x374; bit_length := 1; base_byte := 5; base_bit := 3;
     scale := Lint 1; offset := Lint 0; sig_min := Lint 0; sig_max := Lint 1 |}.
Definition AUDIO4_S_ACCompresSwitch : signal :=
  {| message_id := 0x374; bit_length := 1; base_byte := 5; base_bit := 5;
     scale := Lint 1; offset := Lint 0; sig_min := Lint 0; sig_max := Lint 1 |}.
Definition AUDIO4_S_CLMOFF : signal :=
  {| message_id := 0x374; bit_length := 1; base_byte := 5; base_bit := 6;
     scale := Lint 1; offset := Lint 0; sig_min := Lint 0; sig_max := Lint 1 |}.
Definition AUDIO4_S_RearDefrost : signal :=
  {| message_id := 0x374; bit_length := 1; base_byte := 6; base_bit := 2;
     scale := Lint 1; offset := Lint 0; sig_min := Lint 0; sig_max := Lint 1 |}.
Definition AUDIO4_S_FRMPositionSet : signal :=
  {| message_id := 0x374; bit_length := 4; base_byte := 6; base_bit := 6;
     scale := Lint 1; offset := Lint 0; sig_min := Lint 0; sig_max := Lint 15 |}.
Definition AC2_Checksum : signal :=
  {| message_id := 0x46C; bit_length := 8; base_byte := 0; base_bit := 7;
     scale := Lint 1; offset := Lint 0; sig_min := Lint 0; sig_max := Lint 255 |}.
Definition AC2_N_InsideCarTemp : signal :=
  {| message_id := 0x46C; bit_length := 8; base_byte := 2; base_bit := 7;
     scale := Ldec 5 1; offset := Lint (-50); sig_min := Lint (-50); sig_max := Lint 77 |}.
Definition AC2_N_EnvironmentTemp : signal :=
  {| message_id := 0x46C; bit_length := 8; base_byte := 3; base_bit := 7;
     scale := Ldec 5 1; offset := Lint (-50); sig_min := Lint (-50); sig_max := Lint 77 |}.
Definition AC2_St_SetTempAutomaticAC_L : signal :=
  {| message_id := 0x46C; bit_length := 5; base_byte := 5; base_bit := 4;
     scale := Ldec 5 1; offset := Lint 18; sig_min := Lint 18; sig_max := Lint 32 |}.
Definition AC2_St_TempLevelElectricAC : signal :=
  {| message_id := 0x46C; bit_length := 5; base_byte := 6; base_bit := 4;
     scale := Lint 1; offset := Lint 0; sig_min := Lint 0; sig_max := Lint 16 |}.
Definition AC2_St_FLSeatHeating : signal :=
  {| message_id := 0x46C; bit_length := 3; base_byte := 7; base_bit := 2;
     scale := Lint 1; offset := Lint 0; sig_min := Lint 0; sig_max := Lint 7 |}.
Definition AC2_St_RemoteControl : signal :=
  {| message_id := 0x46C; bit_length := 1; base_byte := 7; base_bit := 7;
     scale := Lint 1; offset := Lint 0; sig_min := Lint 0; sig_max := Lint 1 |}.
Definition TBOX1_St_FrontDefrost : signal :=
  {| message_id := 0x478; bit_length := 2; base_byte := 1; base_bit := 5;
     scale := Lint 1; offset := Lint 0; sig_min := Lint 0; sig_max := Lint 3 |}.
Definition TBOX1_St_CLM : signal :=
  {| message_id := 0x478; bit_length := 2; base_byte := 2; base_bit := 1;
     scale := Lint 1; offset := Lint 0; sig_min := Lint 0; sig_max := Lint 2 |}.
Definition TBOX1_St_ACSetTemp : signal :=
  {| message_id := 0x478; bit_length := 5; base_byte := 4; base_bit := 7;
     scale := Ldec 5 1; offset := Lint 18; sig_min := Lint 18; sig_max := Lint 32 |}.
Definition AC4_Checksum : signal :=
  {| message_id := 0x57C; bit_length := 8; base_byte := 0; base_bit := 7;
     scale := Lint 1; offset := Lint 0; sig_min := Lint 0; sig_max := Lint 255 |}.
Definition AC4_Front_EVAP_Temp : signal :=
  {| message_id := 0x57C; bit_length := 11; base_byte := 5; base_bit := 7;
     scale := Lint 1; offset := Lint (-40); sig_min := Lint (-40); sig_max := Lint 80 |}.

Definition signal_table : list signal :=
  [ EMS3_F_EngineSpeed;
    EMS3_N_EngineSpeed;
    BR1_N_VehicleSpeed;
    PEPS1_St_RemoteControlSt;
    EMS2_St_ACON;
    EMS2_F_EngineTemp;
    EMS2_N_EngineTemp;
    EMS11_N_SoakTime;
    TCM1_N_SLP;
    AUDIO7_St_FlowModeVoiceControl;
    AUDIO7_St_SetTempVoiceControl_L;
    AUDIO7_S_FrontDefrostVoiceControl;
    AUDIO7_S_AutoVoiceControl;
    AUDIO7_S_AirCirculateVoiceControl;
    AUDIO7_S_ACCompresSwitchVoiceControl;
    AUDIO7_S_CLMWorkVoiceControl;
    AUDIO7_S_SYNC;
    AUDIO7_St_BlowerSpdSetVoiceControl;
    AUDIO7_S_RearDefrostVoiceControl;
    AUDIO7_St_SetTempVoiceControl_R;
    BCM1_St_ReverseGear;
    BCM1_F_ReverseGear;
    BCM1_N_PM25Value;
    AC1_Checksum;
    AC1_S_AC;
    AC1_St_Blower;
    AC1_H_L_PRESS_Sta;
    AC1_St_AirCirculate;
    AC1_MID_PRESS_Status;
    AC1_St_FlowMode;
    AUDIO4_S_PM25AirClean;
    AUDIO4_S_SetTempDown_R;
    AUDIO4_S_SetTempUp_L;
    AUDIO4_S_SetTempDown_L;
    AUDIO4_S_SYNC;
    AUDIO4_St_SetTemp_L;
    AUDIO4_S_TempLevelElectricAC;
    AUDIO4_St_SetBlower;
    AUDIO4_S_NegativeIon;
    AUDIO4_S_Auto;
    AUDIO4_S_AirCirculate;
    AUDIO4_S_ACCompresSwitch;
    AUDIO4_S_CLMOFF;
    AUDIO4_S_RearDefrost;
    AUDIO4_S_FRMPositionSet;
    AC2_Checksum;
    AC2_N_InsideCarTemp;
    AC2_N_EnvironmentTemp;
    AC2_St_SetTempAutomaticAC_L;
    AC2_St_TempLevelElectricAC;
    AC2_St_FLSeatHeating;
    AC2_St_RemoteControl;
    TBOX1_St_FrontDefrost;
    TBOX1_St_CLM;
    TBOX1_St_ACSetTemp;
    AC4_Checksum;
    AC4_Front_EVAP_Temp ].

(** ** The bit walk

    [int byte_pos = base_byte - (i / 8); int bit_pos = base_bit + (i % 8);] *)
Definition byte_pos (s : signal) (i : Z) : Z := base_byte s - Z.quot i 8.
Definition bit_pos (s : signal) (i : Z) : Z := base_bit s + Z.rem i 8.

(** The values taken by [i] in [for (int i = 0; i < n; i++)]. *)
Definition loop_range (n : Z) : list Z := map Z.of_nat (seq 0 (Z.to_nat n)).

(** Loop of a getter:
    [SET_BIT(raw_value, i, GET_BIT(frame->data[byte_pos], bit_pos));] *)
Definition get_step (s : signal) (d : list Z) (raw_value i : Z) : Z :=
  SET_BIT_u64 raw_value i (GET_BIT (load d (byte_pos s i)) (bit_pos s i)).

Definition extract_raw (s : signal) (d : list Z) : Z :=
  fold_left (get_step s d) (loop_range (bit_length s)) 0.

(** Loop of a setter:
    [uint8_t bit_val = GET_BIT(raw_value, i);
     SET_BIT(frame->data[byte_pos], bit_pos, bit_val);] *)
Definition set_step (s : signal) (raw_value : Z) (d : list Z) (i : Z) : list Z :=
  let bit_val := to_uint8 (GET_BIT raw_value i) in
  store d (byte_pos s i)
        (SET_BIT_u8 (load d (byte_pos s i)) (bit_pos s i) bit_val).

Definition insert_raw (s : signal) (raw_value : Z) (d : list Z) : list Z :=
  fold_left (set_step s raw_value) (loop_range (bit_length s)) d.

(** ** Getter and setter bodies *)

(** [*value = (raw_value * SCALE) + OFFSET;] *)
Definition physical_of_raw (s : signal) (raw_value : Z) : spec_float :=
  as_float (c_add (c_mul (Vu64 raw_value) (eval_lit (scale s)))
                  (eval_lit (offset s))).

(** [value < MIN || value > MAX] *)
Definition out_of_range (s : signal) (value : spec_float) : bool :=
  c_lt (Vfloat value) (eval_lit (sig_min s))
  || c_gt (Vfloat value) (eval_lit (sig_max s)).

(** [bool Get_X(const CAN_Frame* frame, float* value)].  The second
    argument is the content of [*value] before the call; the result is the
    returned flag and the content of [*value] after the call. *)
Definition Get_signal (s : signal) (frame : CAN_Frame) (value : spec_float)
  : bool * spec_float :=
  if negb (id frame =? message_id s) then (false, value)
  else
    let raw_value := extract_raw s (data frame) in
    let value := physical_of_raw s raw_value in
    if out_of_range s value then (false, value) else (true, value).

(** [(uint64_t)round((value - OFFSET) / SCALE)] *)
Definition raw_of_physical (s : signal) (value : spec_float) : option Z :=
  double_to_uint64
    (c_round (as_double (c_div (c_sub (Vfloat value) (eval_lit (offset s)))
                               (eval_lit (scale s))))).

(** [bool Set_X(CAN_Frame* frame, float value)].  The result is [None]
    when the call has undefined behaviour (the conversion to [uint64_t]),
    and otherwise the returned flag with the frame after the call. *)
Definition Set_signal (s : signal) (frame : CAN_Frame) (value : spec_float)
  : option (bool * CAN_Frame) :=
  if out_of_range s value then Some (false, frame)
  else
    match raw_of_physical s value with
    | None => None
    | Some raw_value =>
        Some (true, {| id := message_id s;
                       dlc := 8;
                       data := insert_raw s raw_value (data frame) |})
    end.

(** The accessors named in the properties below. *)
Definition Get_EMS3_N_EngineSpeed := Get_signal EMS3_N_EngineSpeed.
Definition Set_EMS3_N_EngineSpeed := Set_signal EMS3_N_EngineSpeed.
Definition Get_EMS3_F_EngineSpeed := Get_signal EMS3_F_EngineSpeed.
Definition Set_EMS3_F_EngineSpeed := Set_signal EMS3_F_EngineSpeed.
Definition Get_BR1_N_VehicleSpeed := Get_signal BR1_N_VehicleSpeed.
Definition Set_BR1_N_VehicleSpeed := Set_signal BR1_N_VehicleSpeed.
Definition Get_EMS2_St_ACON := Get_signal EMS2_St_ACON.
Definition Set_EMS2_St_ACON := Set_signal EMS2_St_ACON.
Definition Get_EMS2_N_EngineTemp := Get_signal EMS2_N_EngineTemp.
Definition Set_EMS2_N_EngineTemp := Set_signal EMS2_N_EngineTemp.

(** ** Static checks on the signal constants *)

(** The loop stays inside [data[0..7]], shifts an [int] by less than its
    width, and starts its bit walk inside a byte. *)
Definition signal_ok (s : signal) : bool :=
  (1 <=? bit_length s) && (bit_length s <=? 31)
  && (0 <=? base_bit s) && (base_bit s <=? 7)
  && (base_byte s <=? 7) && (0 <=? base_byte s - Z.quot (bit_length s - 1) 8).

Definition literal_eqb (x y : literal) : bool :=
  match x, y with
  | Lint a, Lint b => a =? b
  | Ldec a j, Ldec b k => (a =? b) && Nat.eqb j k
  | _, _ => false
  end.

Definition signal_eqb (a b : signal) : bool :=
  (message_id a =? message_id b) && (bit_length a =? bit_length b)
  && (base_byte a =? base_byte b) && (base_bit a =? base_bit b)
  && literal_eqb (scale a) (scale b) && literal_eqb (offset a) (offset b)
  && literal_eqb (sig_min a) (sig_min b) && literal_eqb (sig_max a) (sig_max b).

(** ** Payload bits reached by a walk *)

(** The payload bits that the walk of [s] reaches: its positions with
    [bit_pos] inside the byte. *)
Definition touched (s : signal) : list (Z * Z) :=
  filter (fun p => snd p <? 8)
         (map (fun i => (byte_pos s i, bit_pos s i)) (loop_range (bit_length s))).

Definition pos_eqb (p q : Z * Z) : bool :=
  (fst p =? fst q) && (snd p =? snd q).

Definition spans_disjoint (a b : signal) : bool :=
  forallb (fun p => forallb (fun q => negb (pos_eqb p q)) (touched b)) (touched a).

(** The bits of a raw value that survive a setter followed by the getter
    of the same signal: bit [i] is kept when [bit_pos] at [i] is inside
    the byte. *)
Definition walk_mask (s : signal) : Z :=
  fold_left (fun m i => if bit_pos s i <? 8 then Z.setbit m i else m)
            (loop_range (bit_length s)) 0.

(** The walk of [s] never leaves the byte it starts in. *)
Definition stays_in_byte (s : signal) : bool :=
  base_bit s + bit_length s <=? 8.

(** ** Reference layout of the specification

    The specification's big-endian (Motorola) layout, written from its
    words and not from the code: the most significant bit of the signal is
    its start bit; the following bits descend within the byte and continue
    at bit 7 of the next lower-indexed byte.  [motorola_pos] is the place
    of the [k]-th bit counted from the most significant one. *)
Definition motorola_pos (start_byte start_bit k : Z) : Z * Z :=
  let t := (7 - start_bit) + k in
  (start_byte - t / 8, 7 - t mod 8).

Definition motorola_extract (start_byte start_bit len : Z) (d : list Z) : Z :=
  fold_left
    (fun raw k =>
       let '(byte, bit) := motorola_pos start_byte start_bit k in
       2 * raw + Z.b2z (Z.testbit (load d byte) bit))
    (loop_range len) 0.

(** ** Values between the bounds of a signal *)

(** [min <= value <= max], each comparison in the type C gives it. *)
Definition in_range (s : signal) (value : spec_float) : bool :=
  c_le (eval_lit (sig_min s)) (Vfloat value)
  && c_le (Vfloat value) (eval_lit (sig_max s)).

(** The [float] received by a setter called with the constant that the
    source uses as lower, respectively upper, bound of the signal. *)
Definition min_as_float (s : signal) : spec_float := as_float (eval_lit (sig_min s)).
Definition max_as_float (s : signal) : spec_float := as_float (eval_lit (sig_max s)).

(** A [float] argument written as a decimal constant in a call. *)
Definition float_of_decimal (n : Z) (k : nat) : spec_float :=
  F32.of_double (F64.of_decimal n k).

(** ** Magnitudes of floating-point values *)

(** [x] is a zero, or a finite number of sign [sx] smaller than [2 ^ K] in
    absolute value. *)
Definition fin_le (sx : bool) (K : Z) (x : spec_float) : Prop :=
  match x with
  | S754_zero _ => True
  | S754_finite s m e => s = sx /\ Zpos (digits2_pos m) + e <= K
  | _ => False
  end.

(** [v] is a zero or a finite number below [2 ^ 15] in absolute value. *)
Definition small (v : spec_float) : Prop :=
  match v with
  | S754_zero _ => True
  | S754_finite _ m e => Zpos (digits2_pos m) + e <= 15
  | _ => False
  end.

(** Checks on the constants of a signal under which the conversion to
    [uint64_t] in its setter is defined for every value in range: the
    offset is the lower bound, offset and upper bound are below [2 ^ 15]
    in absolute value, and the scale is positive and at least [2 ^ -9]. *)
Definition offset_ok (x : spec_float) : bool :=
  match x with
  | S754_zero s => negb s
  | S754_finite _ m e => F32.valid x && (e + F32.prec <=? 15)
  | _ => false
  end.

Definition max_ok (prec : Z) (x : spec_float) : bool :=
  match x with
  | S754_finite false _ e => e + prec <=? 15
  | _ => false
  end.

Definition scale_ok (x : spec_float) : bool :=
  match x with
  | S754_finite false m e => -8 <=? Zpos (digits2_pos m) + e
  | _ => false
  end.

Definition fp_ok (s : signal) : bool :=
  match offset s, sig_min s with
  | Lint o, Lint o' => (o =? o') && offset_ok (F32.of_Z o)
  | _, _ => false
  end
  && match sig_max s with
     | Lint M => max_ok F32.prec (F32.of_Z M)
     | Ldec n k => max_ok F64.prec (F64.of_decimal n k)
     end
  && match scale s with
     | Lint k => scale_ok (F32.of_Z k)
     | Ldec n k => scale_ok (F64.of_decimal n k)
     end.

(** ** Frames used in the examples *)

Definition zero_frame : CAN_Frame :=
  {| id := 0; dlc := 0; data := [0; 0; 0; 0; 0; 0; 0; 0] |}.

(** A frame with arbitrary prior content. *)
Definition sample_frame : CAN_Frame :=
  {| id := 0x7FF; dlc := 3;
     data := [0x11; 0x22; 0x33; 0x44; 0x55; 0x66; 0x77; 0x88] |}.

(** ** Raw values a getter can assemble *)

(** The loop indices whose position is a bit of the payload. *)
Definition walk_bits (s : signal) : list Z :=
  filter (fun i => bit_pos s i <? 8) (loop_range (bit_length s)).

(** All numbers whose set bits are among [bits]. *)
Definition submasks_of (bits : list Z) : list Z :=
  fold_right (fun i l => l ++ map (fun r => Z.setbit r i) l) [0] bits.

Definition reachable_raws (s : signal) : list Z := submasks_of (walk_bits s).

(** The loop index at which the walk of [s] is at bit [j] of byte [k]. *)
Definition walk_index (s : signal) (k j : Z) : option Z :=
  find (fun i => pos_eqb (byte_pos s i, bit_pos s i) (k, j))
       (loop_range (bit_length s)).

(** ** The other accessors of the file *)

Definition Get_PEPS1_St_RemoteControlSt := Get_signal PEPS1_St_RemoteControlSt.
Definition Set_PEPS1_St_RemoteControlSt := Set_signal PEPS1_St_RemoteControlSt.
Definition Get_EMS2_F_EngineTemp := Get_signal EMS2_F_EngineTemp.
Definition Set_EMS2_F_EngineTemp := Set_signal EMS2_F_EngineTemp.
Definition Get_EMS11_N_SoakTime := Get_signal EMS11_N_SoakTime.
Definition Set_EMS11_N_SoakTime := Set_signal EMS11_N_SoakTime.
Definition Get_TCM1_N_SLP := Get_signal TCM1_N_SLP.
Definition Set_TCM1_N_SLP := Set_signal TCM1_N_SLP.
Definition Get_AUDIO7_St_FlowModeVoiceControl := Get_signal AUDIO7_St_FlowModeVoiceControl.
Definition Set_AUDIO7_St_FlowModeVoiceControl := Set_signal AUDIO7_St_FlowModeVoiceControl.
Definition Get_AUDIO7_St_SetTempVoiceControl_L := Get_signal AUDIO7_St_SetTempVoiceControl_L.
Definition Set_AUDIO7_St_SetTempVoiceControl_L := Set_signal AUDIO7_St_SetTempVoiceControl_L.
Definition Get_AUDIO7_S_FrontDefrostVoiceControl := Get_signal AUDIO7_S_FrontDefrostVoiceControl.
Definition Set_AUDIO7_S_FrontDefrostVoiceControl := Set_signal AUDIO7_S_FrontDefrostVoiceControl.
Definition Get_AUDIO7_S_AutoVoiceControl := Get_signal AUDIO7_S_AutoVoiceControl.
Definition Set_AUDIO7_S_AutoVoiceControl := Set_signal AUDIO7_S_AutoVoiceControl.
Definition Get_AUDIO7_S_AirCirculateVoiceControl := Get_signal AUDIO7_S_AirCirculateVoiceControl.
Definition Set_AUDIO7_S_AirCirculateVoiceControl := Set_signal AUDIO7_S_AirCirculateVoiceControl.
Definition Get_AUDIO7_S_ACCompresSwitchVoiceControl := Get_signal AUDIO7_S_ACCompresSwitchVoiceControl.
Definition Set_AUDIO7_S_ACCompresSwitchVoiceControl := Set_signal AUDIO7_S_ACCompresSwitchVoiceControl.
Definition Get_AUDIO7_S_CLMWorkVoiceControl := Get_signal AUDIO7_S_CLMWorkVoiceControl.
Definition Set_AUDIO7_S_CLMWorkVoiceControl := Set_signal AUDIO7_S_CLMWorkVoiceControl.
Definition Get_AUDIO7_S_SYNC := Get_signal AUDIO7_S_SYNC.
Definition Set_AUDIO7_S_SYNC := Set_signal AUDIO7_S_SYNC.
Definition Get_AUDIO7_St_BlowerSpdSetVoiceControl := Get_signal AUDIO7_St_BlowerSpdSetVoiceControl.
Definition Set_AUDIO7_St_BlowerSpdSetVoiceControl := Set_signal AUDIO7_St_BlowerSpdSetVoiceControl.
Definition Get_AUDIO7_S_RearDefrostVoiceControl := Get_signal AUDIO7_S_RearDefrostVoiceControl.
Definition Set_AUDIO7_S_RearDefrostVoiceControl := Set_signal AUDIO7_S_RearDefrostVoiceControl.
Definition Get_AUDIO7_St_SetTempVoiceControl_R := Get_signal AUDIO7_St_SetTempVoiceControl_R.
Definition Set_AUDIO7_St_SetTempVoiceControl_R := Set_signal AUDIO7_St_SetTempVoiceControl_R.
Definition Get_BCM1_St_ReverseGear := Get_signal BCM1_St_ReverseGear.
Definition Set_BCM1_St_ReverseGear := Set_signal BCM1_St_ReverseGear.
Definition Get_BCM1_F_ReverseGear := Get_signal BCM1_F_ReverseGear.
Definition Set_BCM1_F_ReverseGear := Set_signal BCM1_F_ReverseGear.
Definition Get_BCM1_N_PM25Value := Get_signal BCM1_N_PM25Value.
Definition Set_BCM1_N_PM25Value := Set_signal BCM1_N_PM25Value.
Definition Get_AC1_Checksum := Get_signal AC1_Checksum.
Definition Set_AC1_Checksum := Set_signal AC1_Checksum.
Definition Get_AC1_S_AC := Get_signal AC1_S_AC.
Definition Set_AC1_S_AC := Set_signal AC1_S_AC.
Definition Get_AC1_St_Blower := Get_signal AC1_St_Blower.
Definition Set_AC1_St_Blower := Set_signal AC1_St_Blower.
Definition Get_AC1_H_L_PRESS_Sta := Get_signal AC1_H_L_PRESS_Sta.
Definition Set_AC1_H_L_PRESS_Sta := Set_signal AC1_H_L_PRESS_Sta.
Definition Get_AC1_St_AirCirculate := Get_signal AC1_St_AirCirculate.
Definition Set_AC1_St_AirCirculate := Set_signal AC1_St_AirCirculate.
Definition Get_AC1_MID_PRESS_Status := Get_signal AC1_MID_PRESS_Status.
Definition Set_AC1_MID_PRESS_Status := Set_signal AC1_MID_PRESS_Status.
Definition Get_AC1_St_FlowMode := Get_signal AC1_St_FlowMode.
Definition Set_AC1_St_FlowMode := Set_signal AC1_St_FlowMode.
Definition Get_AUDIO4_S_PM25AirClean := Get_signal AUDIO4_S_PM25AirClean.
Definition Set_AUDIO4_S_PM25AirClean := Set_signal AUDIO4_S_PM25AirClean.
Definition Get_AUDIO4_S_SetTempDown_R := Get_signal AUDIO4_S_SetTempDown_R.
Definition Set_AUDIO4_S_SetTempDown_R := Set_signal AUDIO4_S_SetTempDown_R.
Definition Get_AUDIO4_S_SetTempUp_L := Get_signal AUDIO4_S_SetTempUp_L.
Definition Set_AUDIO4_S_SetTempUp_L := Set_signal AUDIO4_S_SetTempUp_L.
Definition Get_AUDIO4_S_SetTempDown_L := Get_signal AUDIO4_S_SetTempDown_L.
Definition Set_AUDIO4_S_SetTempDown_L := Set_signal AUDIO4_S_SetTempDown_L.
Definition Get_AUDIO4_S_SYNC := Get_signal AUDIO4_S_SYNC.
Definition Set_AUDIO4_S_SYNC := Set_signal AUDIO4_S_SYNC.
Definition Get_AUDIO4_St_SetTemp_L := Get_signal AUDIO4_St_SetTemp_L.
Definition Set_AUDIO4_St_SetTemp_L := Set_signal AUDIO4_St_SetTemp_L.
Definition Get_AUDIO4_S_TempLevelElectricAC := Get_signal AUDIO4_S_TempLevelElectricAC.
Definition Set_AUDIO4_S_TempLevelElectricAC := Set_signal AUDIO4_S_TempLevelElectricAC.
Definition Get_AUDIO4_St_SetBlower := Get_signal AUDIO4_St_SetBlower.
Definition Set_AUDIO4_St_SetBlower := Set_signal AUDIO4_St_SetBlower.
Definition Get_AUDIO4_S_NegativeIon := Get_signal AUDIO4_S_NegativeIon.
Definition Set_AUDIO4_S_NegativeIon := Set_signal AUDIO4_S_NegativeIon.
Definition Get_AUDIO4_S_Auto := Get_signal AUDIO4_S_Auto.
Definition Set_AUDIO4_S_Auto := Set_signal AUDIO4_S_Auto.
Definition Get_AUDIO4_S_AirCirculate := Get_signal AUDIO4_S_AirCirculate.
Definition Set_AUDIO4_S_AirCirculate := Set_signal AUDIO4_S_AirCirculate.
Definition Get_AUDIO4_S_ACCompresSwitch := Get_signal AUDIO4_S_ACCompresSwitch.
Definition Set_AUDIO4_S_ACCompresSwitch := Set_signal AUDIO4_S_ACCompresSwitch.
Definition Get_AUDIO4_S_CLMOFF := Get_signal AUDIO4_S_CLMOFF.
Definition Set_AUDIO4_S_CLMOFF := Set_signal AUDIO4_S_CLMOFF.
Definition Get_AUDIO4_S_RearDefrost := Get_signal AUDIO4_S_RearDefrost.
Definition Set_AUDIO4_S_RearDefrost := Set_signal AUDIO4_S_RearDefrost.
Definition Get_AUDIO4_S_FRMPositionSet := Get_signal AUDIO4_S_FRMPositionSet.
Definition Set_AUDIO4_S_FRMPositionSet := Set_signal AUDIO4_S_FRMPositionSet.
Definition Get_AC2_Checksum := Get_signal AC2_Checksum.
Definition Set_AC2_Checksum := Set_signal AC2_Checksum.
Definition Get_AC2_N_InsideCarTemp := Get_signal AC2_N_InsideCarTemp.
Definition Set_AC2_N_InsideCarTemp := Set_signal AC2_N_InsideCarTemp.
Definition Get_AC2_N_EnvironmentTemp := Get_signal AC2_N_EnvironmentTemp.
Definition Set_AC2_N_EnvironmentTemp := Set_signal AC2_N_EnvironmentTemp.
Definition Get_AC2_St_SetTempAutomaticAC_L := Get_signal AC2_St_SetTempAutomaticAC_L.
Definition Set_AC2_St_SetTempAutomaticAC_L := Set_signal AC2_St_SetTempAutomaticAC_L.
Definition Get_AC2_St_TempLevelElectricAC := Get_signal AC2_St_TempLevelElectricAC.
Definition Set_AC2_St_TempLevelElectricAC := Set_signal AC2_St_TempLevelElectricAC.
Definition Get_AC2_St_FLSeatHeating := Get_signal AC2_St_FLSeatHeating.
Definition Set_AC2_St_FLSeatHeating := Set_signal AC2_St_FLSeatHeating.
Definition Get_AC2_St_RemoteControl := Get_signal AC2_St_RemoteControl.
Definition Set_AC2_St_RemoteControl := Set_signal AC2_St_RemoteControl.
Definition Get_TBOX1_St_FrontDefrost := Get_signal TBOX1_St_FrontDefrost.
Definition Set_TBOX1_St_FrontDefrost := Set_signal TBOX1_St_FrontDefrost.
Definition Get_TBOX1_St_CLM := Get_signal TBOX1_St_CLM.
Definition Set_TBOX1_St_CLM := Set_signal TBOX1_St_CLM.
Definition Get_TBOX1_St_ACSetTemp := Get_signal TBOX1_St_ACSetTemp.
Definition Set_TBOX1_St_ACSetTemp := Set_signal TBOX1_St_ACSetTemp.
Definition Get_AC4_Checksum := Get_signal AC4_Checksum.
Definition Set_AC4_Checksum := Set_signal AC4_Checksum.
Definition Get_AC4_Front_EVAP_Temp := Get_signal AC4_Front_EVAP_Temp.
Definition Set_AC4_Front_EVAP_Temp := Set_signal AC4_Front_EVAP_Temp.

(** * Properties *)

(** ** Bits of the macros *)

Lemma GET_BIT_testbit (x p : Z) :
  0 <= p -> GET_BIT x p = Z.b2z (Z.testbit x p).
Proof.
  intros Hp. unfold GET_BIT.
  change 1 with (Z.ones 1). rewrite Z.land_ones by lia.
  change (2 ^ 1) with 2. rewrite <- Z.bit0_mod.
  rewrite Z.shiftr_spec by lia. reflexivity.
Qed.

Lemma GET_BIT_range (x p : Z) : 0 <= p -> 0 <= GET_BIT x p <= 1.
Proof.
  intros Hp. rewrite GET_BIT_testbit by assumption.
  destruct (Z.testbit x p); simpl; lia.
Qed.

Lemma testbit_b2z (b : bool) (j : Z) :
  Z.testbit (Z.b2z b) j = b && (j =? 0).
Proof.
  destruct b; simpl.
  - destruct (Z.eqb_spec j 0) as [->|Hj]; [reflexivity|].
    destruct j; try congruence; reflexivity.
  - apply Z.testbit_0_l.
Qed.

Lemma byte_ok_high (x j : Z) : byte_ok x -> 8 <= j -> Z.testbit x j = false.
Proof.
  intros Hx Hj. unfold byte_ok in Hx.
  rewrite <- (Z.mod_small x (2 ^ 8)) by lia.
  apply Z.mod_pow2_bits_high. lia.
Qed.

Lemma to_uint8_ok (x : Z) : byte_ok (to_uint8 x).
Proof. unfold byte_ok, to_uint8. apply Z.mod_pos_bound. lia. Qed.

Lemma to_uint8_small (x : Z) : 0 <= x <= 1 -> to_uint8 x = x.
Proof. intros H. unfold to_uint8. apply Z.mod_small. lia. Qed.

Lemma testbit_ulong_mask (p j : Z) :
  0 <= p -> 0 <= j < 64 ->
  Z.testbit (ulong_not (to_uint64 (Z.shiftl 1 p))) j = negb (j =? p).
Proof.
  intros Hp Hj. unfold ulong_not, to_uint64.
  rewrite Z.mod_pow2_bits_low by lia.
  rewrite Z.lnot_spec by lia.
  rewrite Z.mod_pow2_bits_low by lia.
  rewrite Z.shiftl_1_l, Z.pow2_bits_eqb by lia.
  rewrite Z.eqb_sym. reflexivity.
Qed.

(** Bit [j] of the right-hand side of [SET_BIT] when the inserted value is
    a single bit. *)
Lemma testbit_SET_BIT_rhs (x p b j : Z) :
  0 <= p -> 0 <= j < 64 -> 0 <= b <= 1 ->
  Z.testbit (SET_BIT_rhs x p b) j =
  if j =? p then Z.testbit b 0 else Z.testbit x j.
Proof.
  intros Hp Hj Hb. unfold SET_BIT_rhs.
  rewrite Z.lor_spec, Z.land_spec, testbit_ulong_mask by lia.
  rewrite Z.shiftl_spec by lia.
  destruct (Z.eqb_spec j p) as [->|Hne]; simpl.
  - rewrite Bool.andb_false_r, Z.sub_diag. reflexivity.
  - rewrite Bool.andb_true_r.
    assert (Hz : Z.testbit b (j - p) = false).
    { assert (b = 0 \/ b = 1) as [->| ->] by lia.
      - apply Z.testbit_0_l.
      - destruct (j - p) eqn:E; try lia; reflexivity. }
    rewrite Hz. apply Bool.orb_false_r.
Qed.

(** With a 32-bit [unsigned long] the macro computes the same value, as
    long as the position is below 32 and the old value below [2 ^ 32]. *)
Lemma SET_BIT_rhs32_eq (x p b : Z) :
  0 <= p < 32 -> 0 <= x < 2 ^ 32 ->
  SET_BIT_rhs32 x p b = SET_BIT_rhs x p b.
Proof.
  intros Hp Hx. unfold SET_BIT_rhs32, SET_BIT_rhs. f_equal.
  apply Z.bits_inj'. intros j Hj. rewrite !Z.land_spec.
  destruct (Z_lt_ge_dec j 32) as [Hlt|Hge].
  - rewrite testbit_ulong_mask by lia.
    rewrite Z.mod_pow2_bits_low, Z.lnot_spec by lia.
    rewrite Z.mod_pow2_bits_low by lia.
    rewrite Z.shiftl_1_l, Z.pow2_bits_eqb by lia.
    rewrite (Z.eqb_sym p j). reflexivity.
  - assert (Hz : Z.testbit x j = false).
    { rewrite <- (Z.mod_small x (2 ^ 32)) by lia.
      apply Z.mod_pow2_bits_high. lia. }
    rewrite Hz. reflexivity.
Qed.

Lemma testbit_SET_BIT_u8 (x p b j : Z) :
  0 <= p -> 0 <= j < 8 -> 0 <= b <= 1 ->
  Z.testbit (SET_BIT_u8 x p b) j =
  if j =? p then Z.testbit b 0 else Z.testbit x j.
Proof.
  intros Hp Hj Hb. unfold SET_BIT_u8, to_uint8.
  rewrite Z.mod_pow2_bits_low by lia.
  apply testbit_SET_BIT_rhs; lia.
Qed.


(** A [GET_BIT] on a byte at a position beyond bit 7 reads 0. *)
Lemma GET_BIT_beyond (x p : Z) : byte_ok x -> 8 <= p -> GET_BIT x p = 0.
Proof.
  intros Hx Hp. rewrite GET_BIT_testbit by lia.
  rewrite byte_ok_high by assumption. reflexivity.
Qed.

(** ** The payload array *)

Lemma replace_nth_length (n : nat) (v : Z) (d : list Z) :
  length (replace_nth n v d) = length d.
Proof.
  revert n; induction d as [|h t IH]; intros [|n]; simpl; auto.
Qed.

Lemma nth_replace_nth (n m : nat) (v : Z) (d : list Z) :
  nth m (replace_nth n v d) 0 =
  if Nat.eqb m n && Nat.ltb n (length d) then v else nth m d 0.
Proof.
  revert n m; induction d as [|h t IH]; intros n m.
  - assert (Hlt : Nat.ltb n (length (@nil Z)) = false) by (destruct n; reflexivity).
    rewrite Hlt, Bool.andb_false_r. destruct n, m; reflexivity.
  - destruct n as [|n], m as [|m]; simpl; try reflexivity.
    rewrite IH. reflexivity.
Qed.

Lemma store_length (d : list Z) (k v : Z) : length (store d k v) = length d.
Proof.
  unfold store. destruct (_ && _); [apply replace_nth_length|reflexivity].
Qed.

Lemma load_store (d : list Z) (k k' v : Z) :
  load (store d k v) k' =
  if (k' =? k) && (0 <=? k) && (k <? Z.of_nat (length d)) then v else load d k'.
Proof.
  unfold load. rewrite store_length. unfold store.
  destruct (Z.leb_spec 0 k); destruct (Z.ltb_spec k (Z.of_nat (length d)));
    destruct (Z.eqb_spec k' k); subst; simpl;
    try rewrite Bool.andb_false_r; try reflexivity.
  - destruct (Z.leb_spec 0 k); destruct (Z.ltb_spec k (Z.of_nat (length d)));
      try lia; simpl.
    rewrite nth_replace_nth, Nat.eqb_refl.
    destruct (Nat.ltb_spec (Z.to_nat k) (length d)); [reflexivity|lia].
  - destruct (Z.leb_spec 0 k'); destruct (Z.ltb_spec k' (Z.of_nat (length d)));
      simpl; try reflexivity.
    rewrite nth_replace_nth.
    destruct (Nat.eqb_spec (Z.to_nat k') (Z.to_nat k)); [lia|reflexivity].
Qed.

Lemma load_ok (d : list Z) (k : Z) : Forall byte_ok d -> byte_ok (load d k).
Proof.
  intros Hd. unfold load. destruct (_ && _) eqn:E.
  - apply andb_prop in E as [H1 H2].
    apply Z.leb_le in H1. apply Z.ltb_lt in H2.
    rewrite Forall_forall in Hd. apply Hd, nth_In. lia.
  - unfold byte_ok. lia.
Qed.

Lemma replace_nth_ok (n : nat) (v : Z) (d : list Z) :
  byte_ok v -> Forall byte_ok d -> Forall byte_ok (replace_nth n v d).
Proof.
  intros Hv Hd. revert n. induction Hd as [|h t Hh Ht IH]; intros [|n]; simpl;
    constructor; auto.
Qed.

Lemma store_ok (d : list Z) (k v : Z) :
  byte_ok v -> Forall byte_ok d -> Forall byte_ok (store d k v).
Proof.
  intros Hv Hd. unfold store. destruct (_ && _); [apply replace_nth_ok|]; auto.
Qed.

(** ** The two loops *)

Lemma in_loop_range (n i : Z) : In i (loop_range n) <-> 0 <= i < n.
Proof.
  unfold loop_range. rewrite in_map_iff. split.
  - intros (k & <- & Hk). apply in_seq in Hk. lia.
  - intros Hi. exists (Z.to_nat i). split; [lia|]. apply in_seq. lia.
Qed.

Lemma fold_left_ext_in {A B : Type} (f g : A -> B -> A) (l : list B) (a : A) :
  (forall x y, In y l -> f x y = g x y) -> fold_left f l a = fold_left g l a.
Proof.
  revert a; induction l as [|y l IH]; intros a H; simpl; [reflexivity|].
  rewrite (H a y) by (left; reflexivity).
  apply IH. intros x z Hz. apply H. right; assumption.
Qed.

Lemma bit_pos_nonneg (s : signal) (i : Z) :
  0 <= base_bit s -> 0 <= i -> base_bit s <= bit_pos s i <= base_bit s + 7.
Proof.
  intros Hb Hi. unfold bit_pos. rewrite Z.rem_mod_nonneg by lia.
  pose proof (Z.mod_pos_bound i 8). lia.
Qed.

(** Two payloads from which the walk of [s] reads the same bits give the
    same raw value. *)
Lemma extract_raw_ext (s : signal) (d d' : list Z) :
  (forall i, 0 <= i < bit_length s ->
     GET_BIT (load d (byte_pos s i)) (bit_pos s i) =
     GET_BIT (load d' (byte_pos s i)) (bit_pos s i)) ->
  extract_raw s d = extract_raw s d'.
Proof.
  intros H. unfold extract_raw. apply fold_left_ext_in.
  intros raw i Hi. apply in_loop_range in Hi.
  unfold get_step. rewrite H by assumption. reflexivity.
Qed.

Lemma set_step_length (s : signal) (raw : Z) (d : list Z) (i : Z) :
  length (set_step s raw d i) = length d.
Proof. apply store_length. Qed.

Lemma set_step_ok (s : signal) (raw : Z) (d : list Z) (i : Z) :
  Forall byte_ok d -> Forall byte_ok (set_step s raw d i).
Proof. intros Hd. apply store_ok; [apply to_uint8_ok | assumption]. Qed.

(** One iteration of a setter's loop changes no payload bit other than
    the one at [(byte_pos, bit_pos)]. *)
Lemma set_step_bit_other (s : signal) (raw : Z) (d : list Z) (i k j : Z) :
  0 <= base_bit s -> 0 <= i -> 0 <= j < 8 ->
  (byte_pos s i, bit_pos s i) <> (k, j) ->
  Z.testbit (load (set_step s raw d i) k) j = Z.testbit (load d k) j.
Proof.
  intros Hb Hi Hj Hne. unfold set_step. rewrite load_store.
  destruct (Z.eqb_spec k (byte_pos s i)) as [->|Hk]; simpl; [|reflexivity].
  destruct (_ && _); [|reflexivity].
  pose proof (bit_pos_nonneg s i Hb Hi).
  rewrite testbit_SET_BIT_u8; try lia.
  - destruct (Z.eqb_spec j (bit_pos s i)); [congruence|reflexivity].
  - rewrite to_uint8_small; apply GET_BIT_range; lia.
Qed.

(** One iteration leaves every byte it does not index as it was. *)
Lemma set_step_byte_other (s : signal) (raw : Z) (d : list Z) (i k : Z) :
  byte_pos s i <> k -> load (set_step s raw d i) k = load d k.
Proof.
  intros Hne. unfold set_step. rewrite load_store.
  destruct (Z.eqb_spec k (byte_pos s i)); [congruence|reflexivity].
Qed.

Section InsertRaw.
Variable s : signal.
Variable raw : Z.

Lemma fold_set_step_length (l : list Z) (d : list Z) :
  length (fold_left (set_step s raw) l d) = length d.
Proof.
  revert d; induction l as [|i l IH]; intros d; simpl; [reflexivity|].
  rewrite IH. apply set_step_length.
Qed.

Lemma fold_set_step_ok (l : list Z) (d : list Z) :
  Forall byte_ok d -> Forall byte_ok (fold_left (set_step s raw) l d).
Proof.
  revert d; induction l as [|i l IH]; intros d Hd; simpl; [assumption|].
  apply IH, set_step_ok, Hd.
Qed.

Lemma fold_set_step_bit_other (l : list Z) (d : list Z) (k j : Z) :
  0 <= base_bit s -> 0 <= j < 8 ->
  (forall i, In i l -> 0 <= i /\ (byte_pos s i, bit_pos s i) <> (k, j)) ->
  Z.testbit (load (fold_left (set_step s raw) l d) k) j
  = Z.testbit (load d k) j.
Proof.
  intros Hb Hj. revert d; induction l as [|i l IH]; intros d H; simpl.
  - reflexivity.
  - rewrite IH by (intros i' Hi'; apply H; right; assumption).
    destruct (H i (or_introl eq_refl)) as [Hi Hne].
    apply set_step_bit_other; assumption.
Qed.

Lemma fold_set_step_byte_other (l : list Z) (d : list Z) (k : Z) :
  (forall i, In i l -> byte_pos s i <> k) ->
  load (fold_left (set_step s raw) l d) k = load d k.
Proof.
  revert d; induction l as [|i l IH]; intros d H; simpl.
  - reflexivity.
  - rewrite IH by (intros i' Hi'; apply H; right; assumption).
    apply set_step_byte_other, H. left; reflexivity.
Qed.

Lemma insert_raw_length (d : list Z) :
  length (insert_raw s raw d) = length d.
Proof. apply fold_set_step_length. Qed.

Lemma insert_raw_ok (d : list Z) :
  Forall byte_ok d -> Forall byte_ok (insert_raw s raw d).
Proof. apply fold_set_step_ok. Qed.

(** The loop of a setter changes no bit outside the positions of its
    walk. *)
Lemma insert_raw_bit_other (d : list Z) (k j : Z) :
  0 <= base_bit s -> 0 <= j < 8 ->
  (forall i, 0 <= i < bit_length s ->
     (byte_pos s i, bit_pos s i) <> (k, j)) ->
  Z.testbit (load (insert_raw s raw d) k) j = Z.testbit (load d k) j.
Proof.
  intros Hb Hj H. apply fold_set_step_bit_other; try assumption.
  intros i Hi. apply in_loop_range in Hi. split; [lia|]. apply H, Hi.
Qed.

(** It changes no byte outside the bytes of its walk. *)
Lemma insert_raw_byte_other (d : list Z) (k : Z) :
  (forall i, 0 <= i < bit_length s -> byte_pos s i <> k) ->
  load (insert_raw s raw d) k = load d k.
Proof.
  intros H. apply fold_set_step_byte_other.
  intros i Hi. apply in_loop_range in Hi. apply H, Hi.
Qed.
End InsertRaw.

(** ** Signals of one message *)

Lemma literal_eqb_eq (x y : literal) : literal_eqb x y = true -> x = y.
Proof.
  destruct x, y; simpl; try discriminate.
  - intros H. apply Z.eqb_eq in H. congruence.
  - intros H. apply andb_prop in H as [H1 H2].
    apply Z.eqb_eq in H1. apply Nat.eqb_eq in H2. congruence.
Qed.

Lemma signal_eqb_eq (a b : signal) : signal_eqb a b = true -> a = b.
Proof.
  unfold signal_eqb. intros H.
  repeat (apply andb_prop in H as [H ?]).
  destruct a, b; simpl in *.
  repeat match goal with
         | E : (_ =? _) = true |- _ => apply Z.eqb_eq in E
         | E : literal_eqb _ _ = true |- _ => apply literal_eqb_eq in E
         end.
  congruence.
Qed.

Lemma signal_ok_spec (s : signal) :
  signal_ok s = true ->
  1 <= bit_length s <= 31 /\ 0 <= base_bit s <= 7 /\
  forall i, 0 <= i < bit_length s -> 0 <= byte_pos s i <= 7.
Proof.
  unfold signal_ok. intros H.
  repeat (apply andb_prop in H as [H ?]).
  repeat match goal with
         | E : (_ <=? _) = true |- _ => apply Z.leb_le in E
         end.
  repeat split; try lia.
  - unfold byte_pos.
    assert (Z.quot i 8 <= Z.quot (bit_length s - 1) 8)
      by (apply Z.quot_le_mono; lia).
    lia.
  - unfold byte_pos. assert (0 <= Z.quot i 8) by (apply Z.quot_pos; lia). lia.
Qed.

Lemma signal_table_in_bounds : forallb signal_ok signal_table = true.
Proof. vm_compute. reflexivity. Qed.

Lemma signal_table_ok (s : signal) : In s signal_table -> signal_ok s = true.
Proof.
  intros H. pose proof signal_table_in_bounds as Hall.
  rewrite forallb_forall in Hall. apply Hall, H.
Qed.

(** Within the table, two different signals of one message reach disjoint
    sets of payload bits. *)
Lemma signal_table_disjoint :
  forallb (fun a =>
    forallb (fun b =>
      signal_eqb a b || negb (message_id a =? message_id b)
      || spans_disjoint a b) signal_table) signal_table = true.
Proof. vm_compute. reflexivity. Qed.

Lemma touched_spec (s : signal) (k j : Z) :
  In (k, j) (touched s) <->
  exists i, 0 <= i < bit_length s
            /\ byte_pos s i = k /\ bit_pos s i = j /\ j < 8.
Proof.
  unfold touched. rewrite filter_In, in_map_iff. simpl. split.
  - intros [(i & E & Hi) Hj]. apply in_loop_range in Hi.
    apply Z.ltb_lt in Hj. inversion E; subst. exists i. auto.
  - intros (i & Hi & <- & <- & Hj). split.
    + exists i. split; [reflexivity|]. apply in_loop_range, Hi.
    + apply Z.ltb_lt, Hj.
Qed.

Lemma spans_disjoint_spec (a b : signal) (p : Z * Z) :
  spans_disjoint a b = true -> In p (touched a) -> ~ In p (touched b).
Proof.
  unfold spans_disjoint. intros H Ha Hb.
  rewrite forallb_forall in H. specialize (H p Ha).
  rewrite forallb_forall in H. specialize (H p Hb).
  unfold pos_eqb in H. rewrite !Z.eqb_refl in H. discriminate.
Qed.

(** The raw value read by [a] is not changed by the loop of a setter
    whose walk reaches none of the bits of [a]. *)
Lemma extract_insert_disjoint (a b : signal) (raw : Z) (d : list Z) :
  signal_ok a = true -> signal_ok b = true ->
  spans_disjoint a b = true -> Forall byte_ok d ->
  extract_raw a (insert_raw b raw d) = extract_raw a d.
Proof.
  intros Ha Hb Hdis Hd.
  apply signal_ok_spec in Ha as (_ & Hba & _).
  apply signal_ok_spec in Hb as (_ & Hbb & _).
  apply extract_raw_ext. intros i Hi.
  pose proof (bit_pos_nonneg a i ltac:(lia) ltac:(lia)) as Hp.
  destruct (Z_lt_ge_dec (bit_pos a i) 8) as [Hlt|Hge].
  - rewrite !GET_BIT_testbit by lia. f_equal.
    apply insert_raw_bit_other; try lia.
    intros i' Hi' E. inversion E as [[E1 E2]].
    apply (spans_disjoint_spec a b (byte_pos a i, bit_pos a i) Hdis).
    + apply touched_spec. exists i. auto.
    + apply touched_spec. exists i'. repeat split; try lia; assumption.
  - rewrite !GET_BIT_beyond; try lia; try reflexivity.
    + apply load_ok, Hd.
    + apply load_ok, insert_raw_ok, Hd.
Qed.


(** ** What the two loops compute *)

Lemma loop_range_succ (n : nat) :
  loop_range (Z.of_nat (S n)) = loop_range (Z.of_nat n) ++ [Z.of_nat n].
Proof.
  unfold loop_range. rewrite !Nat2Z.id, seq_S, map_app. reflexivity.
Qed.

Lemma testbit_SET_BIT_u64 (x p b j : Z) :
  0 <= p -> 0 <= j -> 0 <= b <= 1 ->
  Z.testbit (SET_BIT_u64 x p b) j =
  (j <? 64) && (if j =? p then Z.testbit b 0 else Z.testbit x j).
Proof.
  intros Hp Hj Hb. unfold SET_BIT_u64, to_uint64.
  destruct (Z.ltb_spec j 64).
  - rewrite Z.mod_pow2_bits_low by lia. apply testbit_SET_BIT_rhs; lia.
  - apply Z.mod_pow2_bits_high. lia.
Qed.

(** Bit [n] of the raw value assembled by a getter is the payload bit at
    the [n]-th position of the walk. *)
Lemma extract_raw_testbit (s : signal) (d : list Z) (n : Z) :
  0 <= base_bit s -> bit_length s <= 64 -> 0 <= n ->
  Z.testbit (extract_raw s d) n =
  (n <? bit_length s) && Z.testbit (load d (byte_pos s n)) (bit_pos s n).
Proof.
  intros Hb Hlen Hn. unfold extract_raw.
  destruct (Z_le_gt_dec (bit_length s) 0) as [Hle|Hgt].
  { unfold loop_range. replace (Z.to_nat (bit_length s)) with 0%nat by lia.
    simpl. rewrite Z.testbit_0_l.
    destruct (Z.ltb_spec n (bit_length s)); [lia|reflexivity]. }
  rewrite <- (Z2Nat.id (bit_length s)) in Hlen |- * by lia.
  induction (Z.to_nat (bit_length s)) as [|N IH].
  - simpl. rewrite Z.testbit_0_l.
    destruct (Z.ltb_spec n 0); [lia|reflexivity].
  - rewrite loop_range_succ, fold_left_app. simpl fold_left.
    unfold get_step at 1.
    pose proof (bit_pos_nonneg s (Z.of_nat N) Hb ltac:(lia)).
    rewrite testbit_SET_BIT_u64; try lia; [|apply GET_BIT_range; lia].
    rewrite GET_BIT_testbit, testbit_b2z, Bool.andb_true_r by lia.
    rewrite IH by lia.
    destruct (Z.eqb_spec n (Z.of_nat N)) as [->|Hne].
    + destruct (Z.ltb_spec (Z.of_nat N) 64); [|lia].
      destruct (Z.ltb_spec (Z.of_nat N) (Z.of_nat (S N))); [|lia].
      reflexivity.
    + destruct (Z.ltb_spec n (Z.of_nat N));
        destruct (Z.ltb_spec n (Z.of_nat (S N))); try lia;
        destruct (Z.ltb_spec n 64); try lia; reflexivity.
Qed.

(** The walk never visits a position twice. *)
Lemma walk_injective (s : signal) (i i' : Z) :
  0 <= i -> 0 <= i' ->
  (byte_pos s i, bit_pos s i) = (byte_pos s i', bit_pos s i') -> i = i'.
Proof.
  unfold byte_pos, bit_pos. intros Hi Hi' E. inversion E as [[E1 E2]].
  rewrite (Z.quot_rem' i 8), (Z.quot_rem' i' 8). lia.
Qed.

Lemma loop_range_NoDup (n : Z) : NoDup (loop_range n).
Proof.
  unfold loop_range. apply Injective_map_NoDup.
  - intros x y. lia.
  - apply seq_NoDup.
Qed.

Lemma set_step_bit_at (s : signal) (raw : Z) (d : list Z) (i : Z) :
  0 <= base_bit s -> 0 <= i -> bit_pos s i < 8 ->
  0 <= byte_pos s i < Z.of_nat (length d) ->
  Z.testbit (load (set_step s raw d i) (byte_pos s i)) (bit_pos s i)
  = Z.testbit raw i.
Proof.
  intros Hb Hi Hlt Hk. unfold set_step. rewrite load_store, Z.eqb_refl.
  destruct (Z.leb_spec 0 (byte_pos s i)); [|lia].
  destruct (Z.ltb_spec (byte_pos s i) (Z.of_nat (length d))); [|lia].
  cbn [andb].
  pose proof (bit_pos_nonneg s i Hb Hi).
  pose proof (GET_BIT_range raw i Hi).
  rewrite testbit_SET_BIT_u8, Z.eqb_refl by (rewrite ?to_uint8_small; lia).
  rewrite to_uint8_small, GET_BIT_testbit, testbit_b2z by lia.
  apply Bool.andb_true_r.
Qed.

Lemma fold_set_step_bit_at (s : signal) (raw : Z) (l : list Z) (d : list Z)
    (i : Z) :
  0 <= base_bit s -> NoDup l -> In i l -> (forall x, In x l -> 0 <= x) ->
  bit_pos s i < 8 -> 0 <= byte_pos s i < Z.of_nat (length d) ->
  Z.testbit (load (fold_left (set_step s raw) l d) (byte_pos s i)) (bit_pos s i)
  = Z.testbit raw i.
Proof.
  intros Hb Hnd. revert d.
  induction Hnd as [|x l Hx Hnd IH]; intros d Hin Hpos Hlt Hk.
  - contradiction.
  - simpl. assert (Hx0 : 0 <= x) by (apply Hpos; left; reflexivity).
    destruct Hin as [->|Hin].
    + assert (Hi0 : 0 <= bit_pos s i)
        by (pose proof (bit_pos_nonneg s i Hb Hx0); lia).
      rewrite fold_set_step_bit_other; try lia.
      * apply set_step_bit_at; assumption.
      * intros i' Hi'. split; [apply Hpos; right; assumption|].
        intros E. apply walk_injective in E;
          [subst; contradiction|apply Hpos; right; assumption|assumption].
    + apply IH; try assumption.
      * intros y Hy. apply Hpos. right; assumption.
      * rewrite set_step_length. assumption.
Qed.

(** After the loop of a setter, the payload bit at the [i]-th position of
    its walk is bit [i] of the raw value, when that position is a bit of
    the byte. *)
Lemma insert_raw_bit_at (s : signal) (raw : Z) (d : list Z) (i : Z) :
  0 <= base_bit s -> 0 <= i < bit_length s -> bit_pos s i < 8 ->
  0 <= byte_pos s i < Z.of_nat (length d) ->
  Z.testbit (load (insert_raw s raw d) (byte_pos s i)) (bit_pos s i)
  = Z.testbit raw i.
Proof.
  intros Hb Hi Hlt Hk. apply fold_set_step_bit_at; try assumption.
  - apply loop_range_NoDup.
  - apply in_loop_range, Hi.
  - intros x Hx. apply in_loop_range in Hx. lia.
Qed.

Lemma walk_mask_testbit (s : signal) (n : Z) :
  0 <= n ->
  Z.testbit (walk_mask s) n = (n <? bit_length s) && (bit_pos s n <? 8).
Proof.
  intros Hn. unfold walk_mask.
  destruct (Z_le_gt_dec (bit_length s) 0) as [Hle|Hgt].
  { unfold loop_range. replace (Z.to_nat (bit_length s)) with 0%nat by lia.
    simpl. rewrite Z.testbit_0_l.
    destruct (Z.ltb_spec n (bit_length s)); [lia|reflexivity]. }
  rewrite <- (Z2Nat.id (bit_length s)) by lia.
  induction (Z.to_nat (bit_length s)) as [|N IH].
  - simpl. rewrite Z.testbit_0_l.
    destruct (Z.ltb_spec n 0); [lia|reflexivity].
  - rewrite loop_range_succ, fold_left_app. simpl fold_left.
    destruct (Z.eqb_spec n (Z.of_nat N)) as [->|Hne].
    + destruct (Z.ltb_spec (Z.of_nat N) (Z.of_nat (S N))); [|lia].
      destruct (bit_pos s (Z.of_nat N) <? 8) eqn:E.
      * rewrite Z.setbit_eq by lia. reflexivity.
      * rewrite IH. destruct (Z.ltb_spec (Z.of_nat N) (Z.of_nat N)); [lia|].
        reflexivity.
    + assert (Hk : Z.testbit
                (if bit_pos s (Z.of_nat N) <? 8
                 then Z.setbit
                        (fold_left
                           (fun m i => if bit_pos s i <? 8 then Z.setbit m i else m)
                           (loop_range (Z.of_nat N)) 0) (Z.of_nat N)
                 else fold_left
                        (fun m i => if bit_pos s i <? 8 then Z.setbit m i else m)
                        (loop_range (Z.of_nat N)) 0) n
              = Z.testbit
                  (fold_left
                     (fun m i => if bit_pos s i <? 8 then Z.setbit m i else m)
                     (loop_range (Z.of_nat N)) 0) n).
      { destruct (bit_pos s (Z.of_nat N) <? 8); [|reflexivity].
        apply Z.setbit_neq; lia. }
      rewrite Hk, IH.
      destruct (Z.ltb_spec n (Z.of_nat N));
        destruct (Z.ltb_spec n (Z.of_nat (S N))); try lia; reflexivity.
Qed.

(** Setter loop followed by getter loop: the raw value comes back with
    only the bits of [walk_mask]. *)
Lemma extract_insert_raw (s : signal) (raw : Z) (d : list Z) :
  signal_ok s = true -> length d = 8%nat -> Forall byte_ok d ->
  extract_raw s (insert_raw s raw d) = Z.land raw (walk_mask s).
Proof.
  intros Hok Hlen Hd.
  destruct (signal_ok_spec s Hok) as (Hl & Hb & Hbyte).
  apply Z.bits_inj'. intros n Hn.
  rewrite extract_raw_testbit, Z.land_spec, walk_mask_testbit by lia.
  destruct (Z.ltb_spec n (bit_length s)) as [Hlt|Hge]; cbn [andb];
    [|apply eq_sym, Bool.andb_false_r].
  destruct (Z.ltb_spec (bit_pos s n) 8) as [Hp|Hp].
  - rewrite Bool.andb_true_r. apply insert_raw_bit_at; try lia.
    rewrite Hlen. specialize (Hbyte n ltac:(lia)). lia.
  - rewrite Bool.andb_false_r. apply byte_ok_high; [|lia].
    apply load_ok, insert_raw_ok, Hd.
Qed.

(** ** Magnitude bounds for the floating-point operations *)

Lemma digits2_pos_bounds (m : positive) :
  2 ^ (Zpos (digits2_pos m) - 1) <= Zpos m < 2 ^ Zpos (digits2_pos m).
Proof.
  induction m as [p IH|p IH|]; simpl digits2_pos.
  - rewrite Pos2Z.inj_succ, (Pos2Z.inj_xI p).
    replace (Z.succ (Zpos (digits2_pos p)) - 1)
      with (Z.succ (Zpos (digits2_pos p) - 1)) by lia.
    rewrite !Z.pow_succ_r by lia.
    generalize dependent (2 ^ (Zpos (digits2_pos p) - 1)).
    generalize dependent (2 ^ Zpos (digits2_pos p)). intros; lia.
  - rewrite Pos2Z.inj_succ, (Pos2Z.inj_xO p).
    replace (Z.succ (Zpos (digits2_pos p)) - 1)
      with (Z.succ (Zpos (digits2_pos p) - 1)) by lia.
    rewrite !Z.pow_succ_r by lia.
    generalize dependent (2 ^ (Zpos (digits2_pos p) - 1)).
    generalize dependent (2 ^ Zpos (digits2_pos p)). intros; lia.
  - simpl. lia.
Qed.

Lemma Zdigits2_nonneg (m : Z) : 0 <= Zdigits2 m.
Proof. destruct m; simpl; lia. Qed.

Lemma Zdigits2_lt_pow (m : Z) : 0 <= m -> m < 2 ^ Zdigits2 m.
Proof.
  destruct m as [|p|p]; simpl; intros H; try lia.
  apply digits2_pos_bounds.
Qed.

Lemma Zdigits2_le (m K : Z) : 0 <= m < 2 ^ K -> 0 <= K -> Zdigits2 m <= K.
Proof.
  intros [H0 H1] HK. destruct m as [|p|p]; simpl; try lia.
  pose proof (digits2_pos_bounds p) as [Hlo _].
  destruct (Z_le_gt_dec (Zpos (digits2_pos p)) K) as [|Hgt]; [assumption|].
  exfalso.
  assert (2 ^ K <= 2 ^ (Zpos (digits2_pos p) - 1))
    by (apply Z.pow_le_mono_r; lia).
  lia.
Qed.

Lemma Zdigits2_mono (a b : Z) : 0 <= a <= b -> Zdigits2 a <= Zdigits2 b.
Proof.
  intros H. apply Zdigits2_le; [|apply Zdigits2_nonneg].
  pose proof (Zdigits2_lt_pow b ltac:(lia)). lia.
Qed.

Lemma shr_1_m (mrs : shr_record) :
  0 <= shr_m mrs -> shr_m (shr_1 mrs) = shr_m mrs / 2.
Proof.
  destruct mrs as [m r s]; simpl. intros Hm.
  destruct m as [|[p|p|]|p]; simpl; try lia; try reflexivity.
  - rewrite (Pos2Z.inj_xI p).
    apply Z.div_unique with (r := 1); lia.
  - rewrite (Pos2Z.inj_xO p).
    apply Z.div_unique with (r := 0); lia.
Qed.

Lemma iter_shr_1_m (p : positive) (mrs : shr_record) :
  0 <= shr_m mrs ->
  shr_m (iter_pos shr_1 p mrs) = shr_m mrs / 2 ^ Zpos p.
Proof.
  revert mrs. induction p as [p IH|p IH|]; intros mrs Hm; simpl iter_pos.
  - assert (H1 : 0 <= shr_m (shr_1 mrs))
      by (rewrite shr_1_m by assumption; apply Z.div_pos; lia).
    assert (H2 : 0 <= shr_m (iter_pos shr_1 p (shr_1 mrs)))
      by (rewrite IH by assumption; apply Z.div_pos; lia).
    rewrite IH, IH, shr_1_m by assumption.
    rewrite !Z.div_div by lia.
    rewrite (Pos2Z.inj_xI p).
    replace (2 * Zpos p + 1) with (1 + Zpos p + Zpos p) by lia.
    rewrite !Z.pow_add_r by lia. f_equal. change (2 ^ 1) with 2. ring.
  - assert (H2 : 0 <= shr_m (iter_pos shr_1 p mrs))
      by (rewrite IH by assumption; apply Z.div_pos; lia).
    rewrite IH, IH by assumption.
    rewrite !Z.div_div by lia.
    rewrite (Pos2Z.inj_xO p).
    replace (2 * Zpos p) with (Zpos p + Zpos p) by lia.
    rewrite !Z.pow_add_r by lia. reflexivity.
  - rewrite shr_1_m by assumption. reflexivity.
Qed.

Lemma shr_record_of_loc_m (m : Z) (l : location) :
  shr_m (shr_record_of_loc m l) = m.
Proof. destruct l as [|[]]; reflexivity. Qed.

(** The mantissa and exponent produced by [shr]. *)
Lemma shr_spec (mrs : shr_record) (e n : Z) :
  0 <= shr_m mrs ->
  shr_m (fst (shr mrs e n)) = shr_m mrs / 2 ^ Z.max n 0
  /\ snd (shr mrs e n) = e + Z.max n 0.
Proof.
  intros Hm. destruct n as [|p|p]; simpl.
  - rewrite Z.div_1_r. split; [reflexivity|lia].
  - rewrite iter_shr_1_m by assumption. split; reflexivity.
  - rewrite Z.div_1_r. split; [reflexivity|lia].
Qed.

Lemma round_nearest_even_bounds (m : Z) (l : location) :
  m <= round_nearest_even m l <= m + 1.
Proof.
  destruct l as [|[]]; simpl; try lia.
  destruct (Z.even m); lia.
Qed.

Lemma div_pow2_digits (m n : Z) :
  0 <= m -> 0 <= n -> Zdigits2 (m / 2 ^ n) + n <= Z.max (Zdigits2 m) n.
Proof.
  intros Hm Hn.
  destruct (Z_le_gt_dec (Zdigits2 m) n) as [Hle|Hgt].
  - assert (m < 2 ^ n).
    { pose proof (Zdigits2_lt_pow m Hm).
      assert (2 ^ Zdigits2 m <= 2 ^ n) by (apply Z.pow_le_mono_r; lia). lia. }
    rewrite Z.div_small by lia. simpl. lia.
  - assert (Zdigits2 (m / 2 ^ n) <= Zdigits2 m - n); [|lia].
    apply Zdigits2_le; [|lia]. split; [apply Z.div_pos; lia|].
    apply Z.div_lt_upper_bound; [lia|].
    rewrite <- Z.pow_add_r by lia.
    replace (n + (Zdigits2 m - n)) with (Zdigits2 m) by lia.
    apply Zdigits2_lt_pow, Hm.
Qed.

Lemma succ_digits (m : Z) : 0 <= m -> Zdigits2 (m + 1) <= Zdigits2 m + 1.
Proof.
  intros Hm. apply Zdigits2_le; [|pose proof (Zdigits2_nonneg m); lia].
  pose proof (Zdigits2_lt_pow m Hm). pose proof (Zdigits2_nonneg m).
  rewrite Z.pow_add_r by lia. lia.
Qed.

Section Bounds.
Variables prec emax : Z.
Hypothesis Hprec : 0 < prec.

Local Abbreviation emin := (SpecFloat.emin prec emax).
Local Abbreviation fexp := (SpecFloat.fexp prec emax).

Lemma fexp_bound (x K : Z) : x <= K -> fexp x <= Z.max (K - prec) emin.
Proof. unfold SpecFloat.fexp. lia. Qed.

Lemma fexp_ge (x : Z) : x - prec <= fexp x /\ emin <= fexp x.
Proof. unfold SpecFloat.fexp. lia. Qed.

Lemma shr_fexp_spec (m e : Z) (l : location) :
  0 <= m ->
  let n := Z.max (fexp (Zdigits2 m + e) - e) 0 in
  shr_m (fst (shr_fexp prec emax m e l)) = m / 2 ^ n
  /\ snd (shr_fexp prec emax m e l) = e + n.
Proof.
  intros Hm n. unfold shr_fexp.
  pose proof (shr_spec (shr_record_of_loc m l) e
                (SpecFloat.fexp prec emax (Zdigits2 m + e) - e)) as H.
  rewrite shr_record_of_loc_m in H. apply H, Hm.
Qed.

(** Rounding keeps the sign and exceeds the next power of two above its
    argument by at most one binade; it does not overflow as long as that
    binade is below [emax]. *)
Lemma binary_round_aux_bound (sx : bool) (mx ex : Z) (lx : location) (K E : Z) :
  0 <= mx -> Zdigits2 mx + ex <= K -> ex <= E ->
  Z.max E (Z.max (Z.max K emin + 1 - prec) emin) <= emax - prec ->
  fin_le sx (Z.max K emin + 1) (binary_round_aux prec emax sx mx ex lx).
Proof.
  intros Hm HK HE Hov. unfold binary_round_aux.
  pose proof (shr_fexp_spec mx ex lx Hm) as [Hm1 He1].
  destruct (shr_fexp prec emax mx ex lx) as [mrs' e'] eqn:E1.
  simpl in Hm1, He1.
  set (n := Z.max (fexp (Zdigits2 mx + ex) - ex) 0) in *.
  set (m1 := round_nearest_even (shr_m mrs') (loc_of_shr_record mrs')).
  assert (Hn : 0 <= n) by lia.
  assert (Hm' : 0 <= shr_m mrs')
    by (rewrite Hm1; apply Z.div_pos; lia).
  pose proof (round_nearest_even_bounds (shr_m mrs') (loc_of_shr_record mrs'))
    as Hrnd. fold m1 in Hrnd.
  assert (Hm1' : 0 <= m1) by lia.
  pose proof (shr_fexp_spec m1 e' loc_Exact Hm1') as [Hm2 He2].
  destruct (shr_fexp prec emax m1 e' loc_Exact) as [mrs'' e''] eqn:E2.
  simpl in Hm2, He2.
  set (n2 := Z.max (fexp (Zdigits2 m1 + e') - e') 0) in *.
  pose proof (Zdigits2_nonneg mx) as Hd0.
  pose proof (div_pow2_digits mx n Hm Hn) as Hd1. rewrite <- Hm1 in Hd1.
  pose proof (fexp_bound (Zdigits2 mx + ex) K HK) as Hf1.
  pose proof (fexp_ge (Zdigits2 mx + ex)) as Hf1'.
  assert (Hd2 : Zdigits2 m1 <= Zdigits2 (shr_m mrs') + 1).
  { etransitivity; [apply (Zdigits2_mono m1 (shr_m mrs' + 1)); lia|].
    apply succ_digits, Hm'. }
  pose proof (Zdigits2_nonneg (shr_m mrs')) as Hd3.
  assert (HM : Zdigits2 m1 + e' <= Z.max K emin + 1) by lia.
  pose proof (fexp_bound (Zdigits2 m1 + e') _ HM) as Hf2.
  assert (Hn2 : 0 <= n2) by lia.
  pose proof (div_pow2_digits m1 n2 Hm1' Hn2) as Hd4. rewrite <- Hm2 in Hd4.
  assert (Hm'' : 0 <= shr_m mrs'')
    by (rewrite Hm2; apply Z.div_pos; lia).
  pose proof (Zdigits2_nonneg m1) as Hd5.
  destruct (shr_m mrs'') as [|m|m] eqn:Em; unfold fin_le; [exact I| |lia].
  change (Zdigits2 (Zpos m)) with (Zpos (digits2_pos m)) in Hd4.
  destruct (Z.leb_spec e'' (emax - prec)) as [Hle|Hgt].
  - split; [reflexivity|]. lia.
  - lia.
Qed.

Lemma iter_xO_digits (m d : positive) :
  digits2_pos (Pos.iter xO m d) = (digits2_pos m + d)%positive.
Proof.
  induction d as [|d IH] using Pos.peano_ind.
  - simpl. rewrite Pos.add_1_r. reflexivity.
  - rewrite Pos.iter_succ. simpl. rewrite IH, Pos.add_succ_r. reflexivity.
Qed.

Lemma shl_align_spec (mx : positive) (ex ex' : Z) :
  Zpos (digits2_pos (fst (shl_align mx ex ex'))) + snd (shl_align mx ex ex')
  = Zpos (digits2_pos mx) + ex
  /\ snd (shl_align mx ex ex') = Z.min ex ex'.
Proof.
  unfold shl_align. destruct (ex' - ex) as [|d|d] eqn:E; cbn [fst snd];
    try lia.
  rewrite iter_xO_digits, Pos2Z.inj_add. lia.
Qed.

Lemma binary_round_bound (sx : bool) (mx : positive) (ex K : Z) :
  Zpos (digits2_pos mx) + ex <= K ->
  Z.max K emin + 1 <= emax -> emin <= emax - prec ->
  fin_le sx (Z.max K emin + 1) (binary_round prec emax sx mx ex).
Proof.
  intros HK HM Hemin. unfold binary_round.
  pose proof (shl_align_spec mx ex
                (SpecFloat.fexp prec emax (Zpos (digits2_pos mx) + ex)))
    as [Hd He].
  destruct (shl_align mx ex _) as [mz ez]. cbn [fst snd] in Hd, He.
  pose proof (fexp_bound (Zpos (digits2_pos mx) + ex) K HK) as Hf.
  apply binary_round_aux_bound with (E := Z.max (K - prec) emin);
    cbn [Zdigits2]; lia.
Qed.

Lemma binary_normalize_bound (m e K : Z) (szero : bool) :
  Zdigits2 m + e <= K ->
  Z.max K emin + 1 <= emax -> emin <= emax - prec ->
  fin_le (m <? 0) (Z.max K emin + 1)
         (binary_normalize prec emax m e szero).
Proof.
  intros HK HM Hemin. destruct m as [|p|p]; cbn [binary_normalize Zdigits2] in *.
  - exact I.
  - apply binary_round_bound; assumption.
  - apply binary_round_bound; assumption.
Qed.

(** Quotient of two finite numbers. *)
Lemma SFdiv_bound (sx sy : bool) (mx my : positive) (ex ey K : Z) :
  Zpos (digits2_pos mx) + ex - (Zpos (digits2_pos my) + ey) + 1 <= K ->
  Z.max K emin + 1 <= emax -> emin <= emax - prec ->
  fin_le (xorb sx sy) (Z.max K emin + 1)
         (SFdiv prec emax (S754_finite sx mx ex) (S754_finite sy my ey)).
Proof.
  intros HK HM Hemin. unfold SFdiv, SFdiv_core_binary.
  set (d1 := Zdigits2 (Zpos mx)). set (d2 := Zdigits2 (Zpos my)).
  set (e' := Z.min (SpecFloat.fexp prec emax (d1 + ex - (d2 + ey))) (ex - ey)).
  set (s := ex - ey - e').
  assert (Hs : 0 <= s) by (unfold s, e'; lia).
  set (m' := match s with
             | 0 => Zpos mx | Zpos _ => Z.shiftl (Zpos mx) s | Zneg _ => 0
             end).
  assert (Hm' : m' = Zpos mx * 2 ^ s).
  { unfold m'. destruct s as [|p|p]; try lia.
    apply Z.shiftl_mul_pow2. lia. }
  pose proof (Z_div_mod m' (Zpos my) ltac:(lia)) as Hdiv.
  destruct (Z.div_eucl m' (Zpos my)) as [q r] eqn:Eq.
  destruct Hdiv as [Hqr Hr].
  assert (Hq0 : 0 <= q) by nia.
  pose proof (digits2_pos_bounds mx) as [_ Hx].
  pose proof (digits2_pos_bounds my) as [Hy _].
  change (Zpos (digits2_pos mx)) with d1 in *.
  change (Zpos (digits2_pos my)) with d2 in *.
  assert (Hd1 : 0 < d1) by (unfold d1; simpl; lia).
  assert (Hd2 : 0 < d2) by (unfold d2; simpl; lia).
  assert (Hqd : Zdigits2 q <= Z.max 0 (d1 + s - d2 + 1)).
  { apply Zdigits2_le; [|lia]. split; [assumption|].
    destruct (Z_le_gt_dec 0 (d1 + s - d2 + 1)) as [Hge|Hlt].
    - rewrite Z.max_r by lia.
      assert (Hpow : 2 ^ (d1 + s) = 2 ^ (d2 - 1) * 2 ^ (d1 + s - d2 + 1))
        by (rewrite <- Z.pow_add_r by lia; f_equal; lia).
      assert (Hlt : m' < 2 ^ (d1 + s)).
      { rewrite Hm', Z.pow_add_r by lia.
        apply Z.mul_lt_mono_pos_r; [apply Z.pow_pos_nonneg; lia|assumption]. }
      assert (0 < 2 ^ (d1 + s - d2 + 1)) by (apply Z.pow_pos_nonneg; lia).
      nia.
    - rewrite Z.max_l by lia. simpl.
      assert (Hlt2 : m' < Zpos my); [|nia].
      assert (2 ^ (d1 + s) <= 2 ^ (d2 - 1))
        by (apply Z.pow_le_mono_r; lia).
      assert (m' < 2 ^ (d1 + s)); [|lia].
      rewrite Hm', Z.pow_add_r by lia.
      apply Z.mul_lt_mono_pos_r; [apply Z.pow_pos_nonneg; lia|assumption]. }
  pose proof (fexp_bound (d1 + ex - (d2 + ey)) (K - 1) ltac:(lia)) as Hf.
  assert (He' : e' <= fexp (d1 + ex - (d2 + ey))) by (unfold e'; lia).
  assert (Hse : s + e' = ex - ey) by (unfold s; lia).
  replace (Z.max K emin) with (Z.max (Z.max K emin) emin) by lia.
  apply binary_round_aux_bound with (E := Z.max (K - 1 - prec) emin);
    try assumption; lia.
Qed.

Lemma iter_xO_val (m d : positive) :
  Zpos (Pos.iter xO m d) = Zpos m * 2 ^ Zpos d.
Proof.
  induction d as [|d IH] using Pos.peano_ind.
  - simpl. lia.
  - rewrite Pos.iter_succ, Pos2Z.inj_succ, Z.pow_succ_r by lia.
    rewrite (Pos2Z.inj_xO (Pos.iter xO m d)), IH. ring.
Qed.

Lemma shl_align_val (mx : positive) (ex ez : Z) :
  ez <= ex -> Zpos (fst (shl_align mx ex ez)) = Zpos mx * 2 ^ (ex - ez).
Proof.
  intros H. unfold shl_align. destruct (ez - ex) as [|d|d] eqn:E; cbn [fst].
  - replace (ex - ez) with 0 by lia. simpl. lia.
  - lia.
  - rewrite iter_xO_val. f_equal. f_equal. lia.
Qed.

Lemma canonical_digits (m : positive) (e : Z) :
  canonical_mantissa prec emax m e = true ->
  Zpos (digits2_pos m) <= prec /\ emin <= e
  /\ (emin < e -> Zpos (digits2_pos m) = prec).
Proof.
  unfold canonical_mantissa, SpecFloat.fexp.
  intros H. apply Z.eqb_eq in H. lia.
Qed.

(** Between two canonical numbers the one with the smaller exponent is
    the smaller one. *)
Lemma canonical_lt (m1 m2 : positive) (e1 e2 : Z) :
  canonical_mantissa prec emax m1 e1 = true ->
  canonical_mantissa prec emax m2 e2 = true ->
  e1 < e2 -> Zpos m1 < Zpos m2 * 2 ^ (e2 - e1).
Proof.
  intros H1 H2 Hlt.
  apply canonical_digits in H1 as (Hd1 & Hmin1 & _).
  apply canonical_digits in H2 as (_ & _ & Hd2).
  specialize (Hd2 ltac:(lia)).
  pose proof (digits2_pos_bounds m1) as [_ Hu].
  pose proof (digits2_pos_bounds m2) as [Hl _]. rewrite Hd2 in Hl.
  assert (2 ^ Zpos (digits2_pos m1) <= 2 ^ prec)
    by (apply Z.pow_le_mono_r; lia).
  assert (Hp : 2 ^ prec = 2 ^ (prec - 1) * 2).
  { replace prec with (prec - 1 + 1) at 1 by lia.
    rewrite Z.pow_add_r by lia. reflexivity. }
  assert (2 ^ 1 <= 2 ^ (e2 - e1)) by (apply Z.pow_le_mono_r; lia).
  change (2 ^ 1) with 2 in *.
  assert (0 < 2 ^ (prec - 1)) by (apply Z.pow_pos_nonneg; lia).
  nia.
Qed.

(** If [y <= x] for canonical finite [x] and [y], the exact difference
    of the aligned mantissas is not negative. *)
Lemma aligned_diff_nonneg (sx sy : bool) (mx my : positive) (ex ey : Z) :
  canonical_mantissa prec emax mx ex = true ->
  canonical_mantissa prec emax my ey = true ->
  SFleb (S754_finite sy my ey) (S754_finite sx mx ex) = true ->
  0 <= cond_Zopp sx (Zpos mx * 2 ^ (ex - Z.min ex ey))
       - cond_Zopp sy (Zpos my * 2 ^ (ey - Z.min ex ey)).
Proof.
  intros Cx Cy. unfold SFleb, SFcompare.
  assert (Hpx : 0 < Zpos mx * 2 ^ (ex - Z.min ex ey))
    by (apply Z.mul_pos_pos; [lia|apply Z.pow_pos_nonneg; lia]).
  assert (Hpy : 0 < Zpos my * 2 ^ (ey - Z.min ex ey))
    by (apply Z.mul_pos_pos; [lia|apply Z.pow_pos_nonneg; lia]).
  destruct sy, sx; cbn [cond_Zopp]; try discriminate; try lia.
  - (* both negative *)
    destruct (Z.compare_spec ey ex) as [E|Hlt|Hgt]; try discriminate.
    + subst. change (Pos.compare_cont Eq my mx) with (my ?= mx)%positive.
      destruct (Pos.compare_spec my mx); cbn [CompOpp]; try discriminate;
        intros _; subst; rewrite ?Z.min_id, ?Z.sub_diag, ?Z.pow_0_r; lia.
    + intros _. pose proof (canonical_lt mx my ex ey Cx Cy Hgt).
      rewrite Z.min_l, Z.sub_diag by lia. lia.
  - (* both non-negative *)
    destruct (Z.compare_spec ey ex) as [E|Hlt|Hgt]; try discriminate.
    + subst. change (Pos.compare_cont Eq my mx) with (my ?= mx)%positive.
      destruct (Pos.compare_spec my mx); cbn [CompOpp]; try discriminate;
        intros _; subst; rewrite ?Z.min_id, ?Z.sub_diag, ?Z.pow_0_r; lia.
    + intros _. pose proof (canonical_lt my mx ey ex Cy Cx Hlt).
      rewrite Z.min_r, Z.sub_diag by lia. lia.
Qed.

(** Difference of two canonical finite numbers [y <= x]. *)
Lemma SFsub_bound (sx sy : bool) (mx my : positive) (ex ey K : Z) :
  canonical_mantissa prec emax mx ex = true ->
  canonical_mantissa prec emax my ey = true ->
  SFleb (S754_finite sy my ey) (S754_finite sx mx ex) = true ->
  Zpos (digits2_pos mx) + ex <= K -> Zpos (digits2_pos my) + ey <= K ->
  Z.max (K + 1) emin + 1 <= emax -> emin <= emax - prec ->
  fin_le false (Z.max (K + 1) emin + 1)
         (SFsub prec emax (S754_finite sx mx ex) (S754_finite sy my ey)).
Proof.
  intros Cx Cy Hle Hx Hy HM Hemin. unfold SFsub.
  set (ez := Z.min ex ey).
  rewrite !shl_align_val by (unfold ez; lia).
  pose proof (aligned_diff_nonneg sx sy mx my ex ey Cx Cy Hle) as Hd.
  fold ez in Hd.
  set (D := cond_Zopp sx (Zpos mx * 2 ^ (ex - ez))
            - cond_Zopp sy (Zpos my * 2 ^ (ey - ez))) in *.
  assert (HD : Zdigits2 D + ez <= K + 1).
  { assert (Zdigits2 D <= K + 1 - ez); [|lia].
    pose proof (digits2_pos_bounds mx) as [_ Hbx].
    pose proof (digits2_pos_bounds my) as [_ Hby].
    assert (Hax : Zpos mx * 2 ^ (ex - ez) < 2 ^ (K - ez)).
    { replace (K - ez) with (K - ex + (ex - ez)) by lia.
      rewrite Z.pow_add_r by (unfold ez; lia).
      apply Z.mul_lt_mono_pos_r; [apply Z.pow_pos_nonneg; unfold ez; lia|].
      assert (2 ^ Zpos (digits2_pos mx) <= 2 ^ (K - ex))
        by (apply Z.pow_le_mono_r; lia). lia. }
    assert (Hay : Zpos my * 2 ^ (ey - ez) < 2 ^ (K - ez)).
    { replace (K - ez) with (K - ey + (ey - ez)) by lia.
      rewrite Z.pow_add_r by (unfold ez; lia).
      apply Z.mul_lt_mono_pos_r; [apply Z.pow_pos_nonneg; unfold ez; lia|].
      assert (2 ^ Zpos (digits2_pos my) <= 2 ^ (K - ey))
        by (apply Z.pow_le_mono_r; lia). lia. }
    assert (0 < Zpos mx * 2 ^ (ex - ez))
      by (apply Z.mul_pos_pos; [lia|apply Z.pow_pos_nonneg; unfold ez; lia]).
    assert (0 < Zpos my * 2 ^ (ey - ez))
      by (apply Z.mul_pos_pos; [lia|apply Z.pow_pos_nonneg; unfold ez; lia]).
    assert (HK0 : 0 <= K - ez) by (unfold ez; lia).
    apply Zdigits2_le; [|lia].
    replace (K + 1 - ez) with (Z.succ (K - ez)) by lia.
    rewrite Z.pow_succ_r by lia.
    unfold D. destruct sx, sy; cbn [cond_Zopp] in *; lia. }
  pose proof (binary_normalize_bound D ez (K + 1) false HD HM Hemin) as Hb.
  destruct (Z.ltb_spec D 0); [lia|exact Hb].
Qed.

(** Rounding a number that already fits the format returns it. *)
Lemma binary_round_aux_exact (sx : bool) (m : positive) (e : Z) :
  fexp (Zpos (digits2_pos m) + e) <= e -> e <= emax - prec ->
  binary_round_aux prec emax sx (Zpos m) e loc_Exact = S754_finite sx m e.
Proof.
  intros Hf He. unfold binary_round_aux, shr_fexp. cbn [Zdigits2].
  assert (Hshr : forall mrs, shr mrs e (fexp (Zpos (digits2_pos m) + e) - e)
                             = (mrs, e)).
  { intros mrs. unfold shr.
    destruct (fexp (Zpos (digits2_pos m) + e) - e) eqn:E; try reflexivity.
    lia. }
  rewrite Hshr. cbn [shr_record_of_loc shr_m loc_of_shr_record
                     round_nearest_even Zdigits2].
  rewrite Hshr. cbn [shr_record_of_loc shr_m].
  destruct (Z.leb_spec e (emax - prec)); [reflexivity|lia].
Qed.

Lemma binary_round_exact (sx : bool) (mx : positive) (ex : Z) :
  fexp (Zpos (digits2_pos mx) + ex) <= ex ->
  fexp (Zpos (digits2_pos mx) + ex) <= emax - prec ->
  exists mz,
    binary_round prec emax sx mx ex
    = S754_finite sx mz (fexp (Zpos (digits2_pos mx) + ex))
    /\ Zpos (digits2_pos mz) + fexp (Zpos (digits2_pos mx) + ex)
       = Zpos (digits2_pos mx) + ex.
Proof.
  intros Hf He. unfold binary_round.
  pose proof (shl_align_spec mx ex
                (SpecFloat.fexp prec emax (Zpos (digits2_pos mx) + ex)))
    as [Hd Hz].
  destruct (shl_align mx ex _) as [mz ez]. cbn [fst snd] in Hd, Hz.
  rewrite Z.min_r in Hz by assumption. subst ez.
  exists mz. split; [|exact Hd].
  apply binary_round_aux_exact; [|assumption].
  rewrite Hd. lia.
Qed.

End Bounds.

Lemma fin_le_weaken (sx : bool) (K K' : Z) (x : spec_float) :
  K <= K' -> fin_le sx K x -> fin_le sx K' x.
Proof.
  intros H. destruct x; unfold fin_le; try tauto.
  intros [? ?]. split; [assumption|lia].
Qed.

(** ** Comparisons *)

Lemma SFcompare_antisym (a b : spec_float) :
  SFcompare b a = option_map CompOpp (SFcompare a b).
Proof.
  destruct a as [sa|sa| |sa ma ea], b as [sb|sb| |sb mb eb];
    try reflexivity;
    try (destruct sa; reflexivity); try (destruct sb; reflexivity);
    try (destruct sa, sb; reflexivity).
  cbn [SFcompare option_map]. f_equal.
  rewrite (Z.compare_antisym ea eb).
  change (Pos.compare_cont Eq mb ma) with (mb ?= ma)%positive.
  change (Pos.compare_cont Eq ma mb) with (ma ?= mb)%positive.
  rewrite (Pos.compare_antisym ma mb).
  destruct sa, sb; try reflexivity;
    destruct (ea ?= eb); cbn [CompOpp]; try reflexivity;
    destruct (ma ?= mb)%positive; reflexivity.
Qed.

Lemma SFleb_not_ltb (a b : spec_float) : SFleb a b = true -> SFltb b a = false.
Proof.
  unfold SFleb, SFltb. rewrite (SFcompare_antisym a b).
  destruct (SFcompare a b) as [[]|]; simpl; congruence.
Qed.

Lemma c_le_not_lt (a b : cval) : c_le a b = true -> c_lt b a = false.
Proof.
  unfold c_le, c_lt, compare_with.
  destruct a, b; try apply SFleb_not_ltb;
    intros H; apply Z.leb_le in H; apply Z.ltb_ge; assumption.
Qed.

(** A value inside the bounds passes the range test of both accessors. *)
Lemma in_range_sound (s : signal) (v : spec_float) :
  in_range s v = true -> out_of_range s v = false.
Proof.
  unfold in_range, out_of_range, c_gt. intros H.
  apply andb_prop in H as [H1 H2].
  rewrite (c_le_not_lt _ _ H1), (c_le_not_lt _ _ H2). reflexivity.
Qed.

(** ** binary32 and binary64 *)

Lemma valid32_inv (s : bool) (m : positive) (e : Z) :
  F32.valid (S754_finite s m e) = true ->
  canonical_mantissa 24 128 m e = true
  /\ Zpos (digits2_pos m) <= 24 /\ -149 <= e <= 104.
Proof.
  unfold F32.valid, valid_binary, bounded. intros H.
  apply andb_prop in H as [Hc He]. apply Z.leb_le in He.
  pose proof (canonical_digits 24 128 m e Hc) as (Hd & Hmin & _).
  change (SpecFloat.emin 24 128) with (-149) in Hmin.
  change (128 - 24) with 104 in He. auto.
Qed.

(** Promotion of a [float] to [double] keeps sign and magnitude. *)
Lemma F64_of_float_exact (s : bool) (m : positive) (e : Z) :
  F32.valid (S754_finite s m e) = true ->
  exists mz, F64.of_float (S754_finite s m e)
             = S754_finite s mz (Zpos (digits2_pos m) + e - 53).
Proof.
  intros Hv. apply valid32_inv in Hv as (_ & Hd & He).
  assert (Hf : SpecFloat.fexp 53 1024 (Zpos (digits2_pos m) + e)
               = Zpos (digits2_pos m) + e - 53).
  { unfold SpecFloat.fexp. change (SpecFloat.emin 53 1024) with (-1074). lia. }
  destruct (binary_round_exact 53 1024 s m e) as (mz & Hz & _).
  - rewrite Hf. lia.
  - rewrite Hf. lia.
  - exists mz. rewrite Hf in Hz. rewrite <- Hz.
    unfold F64.of_float. destruct s; reflexivity.
Qed.

Lemma F64_of_float_bound (sx : bool) (K : Z) (x : spec_float) :
  fin_le sx K x -> -1074 <= K <= 1000 -> fin_le sx (K + 1) (F64.of_float x).
Proof.
  destruct x as [s|s| |s m e]; unfold fin_le at 1; try tauto.
  intros [-> HK] Hb. unfold F64.of_float.
  pose proof (binary_normalize_bound 53 1024 ltac:(lia)
                (cond_Zopp sx (Zpos m)) e K sx) as H.
  change (SpecFloat.emin 53 1024) with (-1074) in H.
  rewrite Z.max_l in H by lia.
  assert (Hs : (cond_Zopp sx (Zpos m) <? 0) = sx) by (destruct sx; reflexivity).
  rewrite Hs in H. apply H; try lia.
  destruct sx; cbn [cond_Zopp Z.opp Zdigits2]; lia.
Qed.

(** ** Definedness of the conversion to [uint64_t] *)

Lemma double_to_uint64_defined (x : spec_float) :
  fin_le false 64 x -> exists n, double_to_uint64 x = Some n.
Proof.
  destruct x as [s|s| |s m e]; unfold fin_le; try tauto.
  - intros _. exists 0. reflexivity.
  - intros [-> Hd]. unfold double_to_uint64.
    pose proof (digits2_pos_bounds m) as [_ Hm].
    set (t := if 0 <=? e then Zpos m * 2 ^ e else Zpos m / 2 ^ (- e)).
    cbv zeta. fold t.
    assert (Ht : t < 2 ^ 64).
    { unfold t. destruct (Z.leb_spec 0 e) as [He|He].
      - assert (Zpos m * 2 ^ e < 2 ^ (Zpos (digits2_pos m) + e)).
        { rewrite Z.pow_add_r by lia.
          apply Z.mul_lt_mono_pos_r; [apply Z.pow_pos_nonneg; lia|assumption]. }
        assert (2 ^ (Zpos (digits2_pos m) + e) <= 2 ^ 64)
          by (apply Z.pow_le_mono_r; lia).
        lia.
      - assert (0 < 2 ^ (- e)) by (apply Z.pow_pos_nonneg; lia).
        apply Z.div_lt_upper_bound; [assumption|].
        rewrite <- Z.pow_add_r by lia.
        assert (2 ^ Zpos (digits2_pos m) <= 2 ^ (- e + 64))
          by (apply Z.pow_le_mono_r; lia).
        lia. }
    destruct (Z.eqb_spec t 0); [eauto|].
    destruct (Z.ltb_spec t (2 ^ 64)); [eauto|lia].
Qed.

Lemma c_round_bound (K : Z) (x : spec_float) :
  fin_le false K x -> 0 <= K <= 62 -> fin_le false 64 (c_round x).
Proof.
  destruct x as [s|s| |s m e]; unfold fin_le at 1; try tauto.
  - intros [-> Hd] HK. unfold c_round.
    destruct (Z.leb_spec 0 e) as [He|He].
    + split; [reflexivity|lia].
    + set (q := (Zpos m + 2 ^ (- e - 1)) / 2 ^ (- e)).
      cbv zeta. fold q.
      destruct (Z.eqb_spec q 0); [exact I|].
      assert (Hp : 0 < 2 ^ (- e)) by (apply Z.pow_pos_nonneg; lia).
      assert (Hh : 2 ^ (- e) = 2 * 2 ^ (- e - 1)).
      { replace (- e) with (Z.succ (- e - 1)) at 1 by lia.
        apply Z.pow_succ_r. lia. }
      assert (Hh0 : 0 < 2 ^ (- e - 1)) by (apply Z.pow_pos_nonneg; lia).
      assert (Hq0 : 0 <= q) by (apply Z.div_pos; lia).
      pose proof (digits2_pos_bounds m) as [_ Hm].
      assert (Hq : q < 2 ^ (K + 1)).
      { apply Z.div_lt_upper_bound; [assumption|].
        assert (2 ^ Zpos (digits2_pos m) <= 2 ^ (K - e))
          by (apply Z.pow_le_mono_r; lia).
        assert (Hk : 2 ^ (K - e) = 2 ^ (- e) * 2 ^ K)
          by (rewrite <- Z.pow_add_r by lia; f_equal; lia).
        replace (K + 1) with (Z.succ K) by lia.
        rewrite (Z.pow_succ_r 2 K) by lia.
        assert (0 < 2 ^ K) by (apply Z.pow_pos_nonneg; lia).
        nia. }
      pose proof (binary_normalize_bound 53 1024 ltac:(lia) q 0 (K + 1) false)
        as H.
      change (SpecFloat.emin 53 1024) with (-1074) in H.
      rewrite Z.max_l in H by lia.
      assert (Hs : (q <? 0) = false) by (apply Z.ltb_ge; assumption).
      rewrite Hs in H.
      apply (fin_le_weaken false (K + 1 + 1) 64); [lia|].
      apply H; try lia.
      pose proof (Zdigits2_le q (K + 1) ltac:(lia) ltac:(lia)). lia.
Qed.

Lemma SFleb_pos_exp (m1 m2 : positive) (e1 e2 : Z) :
  SFleb (S754_finite false m1 e1) (S754_finite false m2 e2) = true -> e1 <= e2.
Proof.
  unfold SFleb, SFcompare.
  destruct (Z.compare_spec e1 e2); try discriminate; intros _; lia.
Qed.

Lemma SFleb_neg_exp (m1 m2 : positive) (e1 e2 : Z) :
  SFleb (S754_finite true m1 e1) (S754_finite true m2 e2) = true -> e2 <= e1.
Proof.
  unfold SFleb, SFcompare.
  destruct (Z.compare_spec e1 e2); try discriminate; intros _; lia.
Qed.

Lemma offset_ok_inv (x : spec_float) :
  offset_ok x = true ->
  x = S754_zero false
  \/ exists s m e, x = S754_finite s m e
                   /\ F32.valid x = true /\ e + 24 <= 15.
Proof.
  destruct x as [s|s| |s m e]; simpl; try discriminate.
  - destruct s; [discriminate|]. auto.
  - intros H. apply andb_prop in H as [Hv He]. apply Z.leb_le in He.
    right. exists s, m, e. auto.
Qed.

Lemma max_ok_inv (prec : Z) (x : spec_float) :
  max_ok prec x = true ->
  exists m e, x = S754_finite false m e /\ e + prec <= 15.
Proof.
  destruct x as [s|s| |[|] m e]; simpl; try discriminate.
  intros H. apply Z.leb_le in H. eauto.
Qed.

Lemma scale_ok_inv (x : spec_float) :
  scale_ok x = true ->
  exists m e, x = S754_finite false m e /\ -8 <= Zpos (digits2_pos m) + e.
Proof.
  destruct x as [s|s| |[|] m e]; unfold scale_ok; try discriminate.
  intros H. apply Z.leb_le in H. eauto.
Qed.

(** A valid [float] between the bounds of a signal is small. *)
Lemma in_range_small (o32 hi : spec_float) (v : spec_float) :
  offset_ok o32 = true -> F32.valid v = true -> SFleb o32 v = true ->
  (max_ok 24 hi = true /\ SFleb v hi = true)
  \/ (max_ok 53 hi = true /\ SFleb (F64.of_float v) hi = true) ->
  small v.
Proof.
  intros Ho Hv Hlo Hhi.
  destruct v as [s|s| |s m e]; unfold small.
  - exact I.
  - exfalso. destruct Hhi as [[Hm Hle]|[Hm Hle]];
      apply max_ok_inv in Hm as (mM & eM & -> & _);
      apply offset_ok_inv in Ho as [->|(so & mo & eo & -> & _)];
      destruct s; cbn in Hlo, Hle; try discriminate;
      destruct so; discriminate.
  - destruct o32 as [?|?| |? ? ?]; discriminate.
  - pose proof (valid32_inv s m e Hv) as (_ & Hd & He).
    destruct s.
    + apply offset_ok_inv in Ho as [->|(so & mo & eo & -> & _ & Hb)];
        [cbn in Hlo; discriminate|].
      destruct so; [|cbn in Hlo; discriminate].
      apply SFleb_neg_exp in Hlo. lia.
    + destruct Hhi as [[Hm Hle]|[Hm Hle]];
        apply max_ok_inv in Hm as (mM & eM & -> & Hb).
      * apply SFleb_pos_exp in Hle. lia.
      * destruct (F64_of_float_exact false m e Hv) as (mz & Hz).
        rewrite Hz in Hle. apply SFleb_pos_exp in Hle. lia.
Qed.

(** [value - OFFSET] of a setter for a value in range. *)
Lemma sub_offset_bound (o32 v : spec_float) :
  offset_ok o32 = true -> F32.valid v = true -> SFleb o32 v = true ->
  small v -> fin_le false 17 (F32.sub v o32).
Proof.
  intros Ho Hv Hlo Hs. unfold F32.sub.
  apply offset_ok_inv in Ho as [->|(so & mo & eo & -> & Hvo & Hb)].
  - destruct v as [s|s| |s m e]; try contradiction.
    + destruct s; exact I.
    + destruct s; [cbn in Hlo; discriminate|]. unfold small in Hs.
      cbn [SFsub]. split; [reflexivity|lia].
  - pose proof (valid32_inv so mo eo Hvo) as (Hco & Hdo & _).
    destruct v as [s|s| |s m e]; try contradiction.
    + destruct so; [|cbn in Hlo; discriminate]. cbn [SFsub negb].
      split; [reflexivity|lia].
    + pose proof (valid32_inv s m e Hv) as (Hc & _ & _). unfold small in Hs.
      pose proof (SFsub_bound 24 128 ltac:(lia) s so m mo e eo 15 Hc Hco Hlo)
        as H.
      change (SpecFloat.emin 24 128) with (-149) in H.
      apply H; lia.
Qed.

(** Division by the scale of a signal. *)
Lemma div_scale_bound (prec emax K : Z) (x sc : spec_float) :
  0 < prec -> SpecFloat.emin prec emax <= -16 -> K + 10 <= emax ->
  SpecFloat.emin prec emax <= emax - prec -> -16 <= K ->
  fin_le false K x -> scale_ok sc = true ->
  fin_le false (K + 10) (SFdiv prec emax x sc).
Proof.
  intros Hp Hmin Hmax Hmin' HK Hx Hsc.
  apply scale_ok_inv in Hsc as (ms & es & -> & Hs).
  destruct x as [s|s| |s m e]; unfold fin_le in Hx; try contradiction.
  - exact I.
  - destruct Hx as [-> Hx].
    pose proof (SFdiv_bound prec emax Hp false false m ms e es (K + 9)) as H.
    rewrite Z.max_l in H by lia.
    replace (K + 9 + 1) with (K + 10) in H by lia.
    apply H; lia.
Qed.

(** The conversion [(uint64_t)round((value - OFFSET) / SCALE)] is defined
    for every valid [float] between the bounds of a checked signal. *)
Lemma raw_of_physical_defined (s : signal) (v : spec_float) :
  fp_ok s = true -> F32.valid v = true -> in_range s v = true ->
  exists raw, raw_of_physical s v = Some raw.
Proof.
  unfold fp_ok, in_range, raw_of_physical. intros Hok Hv Hin.
  apply andb_prop in Hok as [Hok Hsc]. apply andb_prop in Hok as [Hoff Hmax].
  apply andb_prop in Hin as [Hlo Hhi].
  destruct (offset s) as [o|]; [|discriminate].
  destruct (sig_min s) as [o'|]; [|discriminate].
  apply andb_prop in Hoff as [Heq Hoff]. apply Z.eqb_eq in Heq. subst o'.
  assert (Hlo' : SFleb (F32.of_Z o) v = true) by exact Hlo.
  assert (Hsmall : small v).
  { apply (in_range_small (F32.of_Z o)
             (match sig_max s with
              | Lint M => F32.of_Z M
              | Ldec n k => F64.of_decimal n k
              end)); try assumption.
    destruct (sig_max s); [left|right]; split; assumption. }
  pose proof (sub_offset_bound (F32.of_Z o) v Hoff Hv Hlo' Hsmall) as H1.
  apply double_to_uint64_defined.
  apply (c_round_bound 28); [|lia].
  destruct (scale s) as [k|n k];
    cbn [eval_lit c_sub c_div arith as_float as_double].
  - apply (F64_of_float_bound false 27); [|lia].
    apply (div_scale_bound 24 128 17); try assumption; vm_compute; congruence.
  - apply (div_scale_bound 53 1024 18); try assumption;
      try (vm_compute; congruence).
    apply (F64_of_float_bound false 17); [assumption|lia].
Qed.

Lemma fp_ok_table : forallb fp_ok signal_table = true.
Proof. vm_compute. reflexivity. Qed.

Lemma signal_table_fp_ok (s : signal) : In s signal_table -> fp_ok s = true.
Proof.
  intros H. pose proof fp_ok_table as Hall.
  rewrite forallb_forall in Hall. apply Hall, H.
Qed.

(** ** Getters and setters *)

Lemma in_table_b (s : signal) :
  existsb (signal_eqb s) signal_table = true -> In s signal_table.
Proof.
  intros H. apply existsb_exists in H as (x & Hx & E).
  apply signal_eqb_eq in E. subst. assumption.
Qed.

Lemma table_pair_disjoint (a b : signal) :
  In a signal_table -> In b signal_table -> a <> b ->
  message_id a = message_id b -> spans_disjoint a b = true.
Proof.
  intros Ha Hb Hne Hid. pose proof signal_table_disjoint as H.
  rewrite forallb_forall in H. specialize (H a Ha).
  rewrite forallb_forall in H. specialize (H b Hb).
  apply orb_prop in H as [H|H]; [|assumption].
  apply orb_prop in H as [H|H].
  - apply signal_eqb_eq in H. contradiction.
  - rewrite Hid, Z.eqb_refl in H. discriminate.
Qed.

(** What a setter that returns [true] has done. *)
Lemma Set_signal_true (s : signal) (f f' : CAN_Frame) (v : spec_float) :
  Set_signal s f v = Some (true, f') ->
  exists raw, raw_of_physical s v = Some raw
              /\ f' = {| id := message_id s; dlc := 8;
                         data := insert_raw s raw (data f) |}.
Proof.
  unfold Set_signal. destruct (out_of_range s v); [discriminate|].
  destruct (raw_of_physical s v) as [raw|]; [|discriminate].
  intros H. inversion H. exists raw. auto.
Qed.

(** A setter rejects every value for which its range test holds. *)
Lemma Set_signal_rejects (s : signal) (f : CAN_Frame) (v : spec_float) :
  out_of_range s v = true -> Set_signal s f v = Some (false, f).
Proof. intros H. unfold Set_signal. rewrite H. reflexivity. Qed.

(** A setter accepts every valid [float] between its bounds, whatever the
    frame holds, and writes the raw value computed from the [float]. *)
Lemma Set_signal_accepts (s : signal) (v : spec_float) :
  fp_ok s = true -> F32.valid v = true -> in_range s v = true ->
  exists raw,
    raw_of_physical s v = Some raw
    /\ forall f, Set_signal s f v
                 = Some (true, {| id := message_id s; dlc := 8;
                                  data := insert_raw s raw (data f) |}).
Proof.
  intros Hok Hv Hin.
  destruct (raw_of_physical_defined s v Hok Hv Hin) as (raw & Hraw).
  exists raw. split; [assumption|]. intros f. unfold Set_signal.
  rewrite (in_range_sound s v Hin), Hraw. reflexivity.
Qed.

Lemma Set_signal_wf (s : signal) (f f' : CAN_Frame) (v : spec_float) :
  In s signal_table -> wf_frame f ->
  Set_signal s f v = Some (true, f') -> wf_frame f'.
Proof.
  intros Hs Hwf H. apply Set_signal_true in H as (raw & _ & ->).
  constructor; simpl.
  - assert (Hid : forallb (fun s => (0 <=? message_id s)
                                    && (message_id s <? 2 ^ 32))
                          signal_table = true) by (vm_compute; reflexivity).
    rewrite forallb_forall in Hid. specialize (Hid s Hs).
    apply andb_prop in Hid as [H1 H2].
    apply Z.leb_le in H1. apply Z.ltb_lt in H2. lia.
  - lia.
  - rewrite insert_raw_length. apply Hwf.
  - apply insert_raw_ok, Hwf.
Qed.

(** The raw value read back after a successful setter call. *)
Lemma Set_then_extract (s : signal) (f f' : CAN_Frame) (v : spec_float) :
  In s signal_table -> wf_frame f ->
  Set_signal s f v = Some (true, f') ->
  exists raw, raw_of_physical s v = Some raw
              /\ extract_raw s (data f') = Z.land raw (walk_mask s).
Proof.
  intros Hs Hwf H. apply Set_signal_true in H as (raw & Hraw & ->).
  exists raw. split; [assumption|]. simpl.
  apply extract_insert_raw; [apply signal_table_ok, Hs|apply Hwf|apply Hwf].
Qed.

(** The signals whose raw value survives a set followed by a get are those
    whose walk never leaves the byte it starts in. *)
Lemma walk_mask_full_iff :
  forallb (fun s =>
    Bool.eqb (walk_mask s =? Z.ones (bit_length s))
             (base_bit s + bit_length s <=? 8)) signal_table = true.
Proof. vm_compute. reflexivity. Qed.

Lemma walk_mask_EMS3_N_EngineSpeed : walk_mask EMS3_N_EngineSpeed = 0x101.
Proof. vm_compute. reflexivity. Qed.

Lemma walk_mask_BR1_N_VehicleSpeed : walk_mask BR1_N_VehicleSpeed = 0x303.
Proof. vm_compute. reflexivity. Qed.

Lemma walk_mask_EMS2_N_EngineTemp : walk_mask EMS2_N_EngineTemp = 0x1.
Proof. vm_compute. reflexivity. Qed.

(** The getter of the engine temperature reads one payload bit. *)
Lemma Get_EMS2_N_EngineTemp_0x98 (f : CAN_Frame) (v0 : spec_float) :
  id f = 0x320 -> load (data f) 2 = 0x98 ->
  Get_EMS2_N_EngineTemp f v0 = (true, SFopp (float_of_decimal 4725 2)).
Proof.
  intros Hid Hb. unfold Get_EMS2_N_EngineTemp, Get_signal.
  rewrite Hid.
  assert (Hraw : extract_raw EMS2_N_EngineTemp (data f) = 1).
  { unfold extract_raw.
    change (loop_range (bit_length EMS2_N_EngineTemp))
      with [0; 1; 2; 3; 4; 5; 6; 7].
    cbn [fold_left]. unfold get_step.
    change (byte_pos EMS2_N_EngineTemp 0) with 2.
    change (byte_pos EMS2_N_EngineTemp 1) with 2.
    change (byte_pos EMS2_N_EngineTemp 2) with 2.
    change (byte_pos EMS2_N_EngineTemp 3) with 2.
    change (byte_pos EMS2_N_EngineTemp 4) with 2.
    change (byte_pos EMS2_N_EngineTemp 5) with 2.
    change (byte_pos EMS2_N_EngineTemp 6) with 2.
    change (byte_pos EMS2_N_EngineTemp 7) with 2.
    rewrite Hb. vm_compute. reflexivity. }
  cbv zeta. rewrite Hraw. vm_compute. reflexivity.
Qed.

(** The vehicle-speed setter followed by its getter, on any frame. *)
Lemma VehicleSpeed_100_any_frame (f : CAN_Frame) (v0 : spec_float) :
  wf_frame f ->
  exists f1,
    Set_BR1_N_VehicleSpeed f (float_of_decimal 10000 2) = Some (true, f1)
    /\ extract_raw BR1_N_VehicleSpeed (data f1) = 768
    /\ Get_BR1_N_VehicleSpeed f1 v0 = (true, float_of_decimal 768 2).
Proof.
  intros Hwf.
  assert (Hraw : raw_of_physical BR1_N_VehicleSpeed (float_of_decimal 10000 2)
                 = Some 10000) by (vm_compute; reflexivity).
  assert (Hset : Set_BR1_N_VehicleSpeed f (float_of_decimal 10000 2)
                 = Some (true, {| id := 0x130; dlc := 8;
                                  data := insert_raw BR1_N_VehicleSpeed 10000
                                                     (data f) |})).
  { unfold Set_BR1_N_VehicleSpeed, Set_signal. rewrite Hraw.
    replace (out_of_range BR1_N_VehicleSpeed (float_of_decimal 10000 2))
      with false by (vm_compute; reflexivity).
    reflexivity. }
  eexists. split; [exact Hset|].
  assert (Hx : extract_raw BR1_N_VehicleSpeed
                 (insert_raw BR1_N_VehicleSpeed 10000 (data f)) = 768).
  { rewrite extract_insert_raw; try apply Hwf; vm_compute; reflexivity. }
  split; [exact Hx|].
  unfold Get_BR1_N_VehicleSpeed, Get_signal. cbn [id data].
  change (0x130 =? message_id BR1_N_VehicleSpeed) with true. cbn [negb].
  cbv zeta. rewrite Hx. vm_compute. reflexivity.
Qed.

(** Every setter accepts the lower bound of its signal. *)
Lemma table_accepts_min (s : signal) (f : CAN_Frame) :
  In s signal_table ->
  exists f', Set_signal s f (min_as_float s) = Some (true, f').
Proof.
  intros Hs.
  assert (Hall : forallb (fun s => F32.valid (min_as_float s)
                                   && in_range s (min_as_float s))
                         signal_table = true) by (vm_compute; reflexivity).
  rewrite forallb_forall in Hall. specialize (Hall s Hs).
  apply andb_prop in Hall as [Hv Hin].
  destruct (Set_signal_accepts s _ (signal_table_fp_ok s Hs) Hv Hin)
    as (raw & _ & H).
  eexists. apply H.
Qed.

(** Every setter but the one of the vehicle speed accepts the upper bound
    of its signal. *)
Lemma table_accepts_max (s : signal) (f : CAN_Frame) :
  In s signal_table -> s <> BR1_N_VehicleSpeed ->
  exists f', Set_signal s f (max_as_float s) = Some (true, f').
Proof.
  intros Hs Hne.
  assert (Hall : forallb (fun s => signal_eqb s BR1_N_VehicleSpeed
                                   || (F32.valid (max_as_float s)
                                       && in_range s (max_as_float s)))
                         signal_table = true) by (vm_compute; reflexivity).
  rewrite forallb_forall in Hall. specialize (Hall s Hs).
  apply orb_prop in Hall as [E|Hall];
    [apply signal_eqb_eq in E; contradiction|].
  apply andb_prop in Hall as [Hv Hin].
  destruct (Set_signal_accepts s _ (signal_table_fp_ok s Hs) Hv Hin)
    as (raw & _ & H).
  eexists. apply H.
Qed.

(** The upper bound of the vehicle speed, [327.66], is not a [float]: the
    [float] nearest to it is larger than the [double] it is compared with. *)
Lemma VehicleSpeed_max_as_float :
  max_as_float BR1_N_VehicleSpeed = S754_finite false 10736763 (-15)
  /\ F64.of_decimal 32766 2 = S754_finite false 5764255679313347 (-44)
  /\ SFltb (F64.of_decimal 32766 2)
           (F64.of_float (max_as_float BR1_N_VehicleSpeed)) = true.
Proof. vm_compute. auto. Qed.

(** ** Checks of the floating-point model on constants of the source *)

Example decimal_0_01 :
  F64.of_decimal 1 2 = S754_finite false 5764607523034235 (-59).
Proof. vm_compute. reflexivity. Qed.

Example decimal_0_75 : F64.of_decimal 75 2 = S754_finite false (3 * 2 ^ 51) (-53).
Proof. vm_compute. reflexivity. Qed.

Example c_round_halfway :
  c_round (F64.of_decimal 25 1) = F64.of_Z 3
  /\ c_round (SFopp (F64.of_decimal 25 1)) = F64.of_Z (-3)
  /\ c_round (F64.of_decimal 5 1) = F64.of_Z 1
  /\ c_round (F64.of_decimal 49 2) = S754_zero false
  /\ c_round (F64.of_Z 10000) = F64.of_Z 10000.
Proof. vm_compute. auto. Qed.

Example uint64_of_double :
  double_to_uint64 (F64.of_Z 152) = Some 152
  /\ double_to_uint64 (F64.of_decimal 1529 1) = Some 152
  /\ double_to_uint64 (F64.of_Z (-1)) = None
  /\ double_to_uint64 (F64.of_Z (2 ^ 64)) = None
  /\ double_to_uint64 S754_nan = None.
Proof. vm_compute. auto. Qed.

(** ** Signals whose walk stays in one byte *)

(** For these signals every raw value whose physical value is in range is
    recovered by the setter's conversion. *)
Lemma raw_of_physical_of_raw_table :
  forallb (fun s =>
    if stays_in_byte s then
      forallb (fun r =>
        if in_range s (physical_of_raw s r) then
          match raw_of_physical s (physical_of_raw s r) with
          | Some r' => r' =? r
          | None => false
          end
        else true) (loop_range (2 ^ bit_length s))
    else true) signal_table = true.
Proof. vm_compute. reflexivity. Qed.

(** The round trip of a raw value holds for the 35 signals whose walk stays
    in the byte it starts in. *)
Lemma roundtrip_in_byte (s : signal) (f : CAN_Frame) (r : Z) (v0 : spec_float) :
  In s signal_table -> stays_in_byte s = true -> wf_frame f ->
  0 <= r < 2 ^ bit_length s ->
  in_range s (physical_of_raw s r) = true ->
  exists f1,
    Set_signal s f (physical_of_raw s r) = Some (true, f1)
    /\ extract_raw s (data f1) = r
    /\ Get_signal s f1 v0 = (true, physical_of_raw s r).
Proof.
  intros Hs Hstay Hwf Hr Hin.
  pose proof (in_range_sound s _ Hin) as Hout.
  assert (Hraw : raw_of_physical s (physical_of_raw s r) = Some r).
  { pose proof raw_of_physical_of_raw_table as H.
    rewrite forallb_forall in H. specialize (H s Hs).
    rewrite Hstay in H.
    rewrite forallb_forall in H.
    specialize (H r (proj2 (in_loop_range _ r) Hr)).
    rewrite Hin in H.
    destruct (raw_of_physical s (physical_of_raw s r)) as [r'|];
      [|discriminate].
    apply Z.eqb_eq in H. congruence. }
  assert (Hmask : walk_mask s = Z.ones (bit_length s)).
  { pose proof walk_mask_full_iff as H.
    rewrite forallb_forall in H. specialize (H s Hs).
    unfold stays_in_byte in Hstay. rewrite Hstay in H.
    apply Bool.eqb_prop in H. apply Z.eqb_eq in H. exact H. }
  destruct (signal_ok_spec s (signal_table_ok s Hs)) as (Hl & _ & _).
  assert (Hx : extract_raw s (insert_raw s r (data f)) = r).
  { rewrite extract_insert_raw;
      [|apply signal_table_ok, Hs|apply Hwf|apply Hwf].
    rewrite Hmask, Z.land_ones by lia. apply Z.mod_small, Hr. }
  eexists. split; [|split].
  - unfold Set_signal. rewrite Hout, Hraw. reflexivity.
  - exact Hx.
  - unfold Get_signal. cbn [id data]. rewrite Z.eqb_refl. cbn [negb].
    cbv zeta. rewrite Hx, Hout. reflexivity.
Qed.

(** ** Not-a-number *)

(** Both comparisons of the range test are false for a NaN, so the setter
    goes on to convert it to [uint64_t], which is undefined. *)
Lemma Set_signal_nan (s : signal) (f : CAN_Frame) :
  In s signal_table -> Set_signal s f S754_nan = None.
Proof.
  intros Hs.
  assert (Hall : forallb (fun s =>
                   negb (out_of_range s S754_nan)
                   && match raw_of_physical s S754_nan with
                      | None => true
                      | Some _ => false
                      end) signal_table = true) by (vm_compute; reflexivity).
  rewrite forallb_forall in Hall. specialize (Hall s Hs).
  apply andb_prop in Hall as [H1 H2]. apply Bool.negb_true_iff in H1.
  unfold Set_signal. rewrite H1.
  destruct (raw_of_physical s S754_nan); [discriminate|reflexivity].
Qed.

(** ** The generic bodies at one signal

    [Get_signal] and [Set_signal] at the constants of the engine speed,
    written out statement by statement as in [Get_EMS3_N_EngineSpeed] and
    [Set_EMS3_N_EngineSpeed] of the source. *)

Lemma Get_EMS3_N_EngineSpeed_body (frame : CAN_Frame) (value : spec_float) :
  Get_EMS3_N_EngineSpeed frame value =
  if negb (id frame =? 0x120) then (false, value)
  else
    let raw_value :=
      fold_left
        (fun raw_value i =>
           let byte_pos := 4 - Z.quot i 8 in
           let bit_pos := 7 + Z.rem i 8 in
           SET_BIT_u64 raw_value i (GET_BIT (load (data frame) byte_pos) bit_pos))
        [0; 1; 2; 3; 4; 5; 6; 7; 8; 9; 10; 11; 12; 13; 14; 15] 0 in
    let value :=
      F32.of_double
        (F64.add (F64.mul (F64.of_Z raw_value) (F64.of_decimal 25 2))
                 (F64.of_Z 0)) in
    if SFltb value (F32.of_Z 0)
       || SFltb (F64.of_decimal 1638375 2) (F64.of_float value)
    then (false, value) else (true, value).
Proof. reflexivity. Qed.

Lemma Set_EMS3_N_EngineSpeed_body (frame : CAN_Frame) (value : spec_float) :
  Set_EMS3_N_EngineSpeed frame value =
  if SFltb value (F32.of_Z 0)
     || SFltb (F64.of_decimal 1638375 2) (F64.of_float value)
  then Some (false, frame)
  else
    match double_to_uint64
            (c_round (F64.div (F64.of_float (F32.sub value (F32.of_Z 0)))
                              (F64.of_decimal 25 2))) with
    | None => None
    | Some raw_value =>
        Some (true,
              {| id := 0x120; dlc := 8;
                 data :=
                   fold_left
                     (fun d i =>
                        let byte_pos := 4 - Z.quot i 8 in
                        let bit_pos := 7 + Z.rem i 8 in
                        let bit_val := to_uint8 (GET_BIT raw_value i) in
                        store d byte_pos
                              (SET_BIT_u8 (load d byte_pos) bit_pos bit_val))
                     [0; 1; 2; 3; 4; 5; 6; 7; 8; 9; 10; 11; 12; 13; 14; 15]
                     (data frame) |})
    end.
Proof. reflexivity. Qed.

(** The same for a signal whose scale and offset are [int] constants:
    the getter computes [(raw_value * 1) + -40] in [uint64_t], the setter
    computes [(value - -40) / 1] in [float]. *)
Lemma physical_of_raw_AC4_Front_EVAP_Temp (raw_value : Z) :
  physical_of_raw AC4_Front_EVAP_Temp raw_value
  = F32.of_Z (to_uint64 (to_uint64 (raw_value * to_uint64 1)
                         + to_uint64 (-40))).
Proof. reflexivity. Qed.

Lemma raw_of_physical_AC4_Front_EVAP_Temp (value : spec_float) :
  raw_of_physical AC4_Front_EVAP_Temp value
  = double_to_uint64
      (c_round (F64.of_float
                  (F32.div (F32.sub value (F32.of_Z (-40))) (F32.of_Z 1)))).
Proof. reflexivity. Qed.

(** ** Values just outside the range *)

(** Every setter rejects its lower bound minus one step of its scale and
    its upper bound plus one step. *)
Lemma table_rejects_beyond (s : signal) (f : CAN_Frame) :
  In s signal_table ->
  Set_signal s f (as_float (c_sub (eval_lit (sig_min s)) (eval_lit (scale s))))
  = Some (false, f)
  /\ Set_signal s f (as_float (c_add (eval_lit (sig_max s)) (eval_lit (scale s))))
     = Some (false, f).
Proof.
  intros Hs.
  assert (Hall : forallb (fun s =>
            out_of_range s (as_float (c_sub (eval_lit (sig_min s))
                                            (eval_lit (scale s))))
            && out_of_range s (as_float (c_add (eval_lit (sig_max s))
                                               (eval_lit (scale s)))))
            signal_table = true) by (vm_compute; reflexivity).
  rewrite forallb_forall in Hall. specialize (Hall s Hs).
  apply andb_prop in Hall as [H1 H2].
  split; apply Set_signal_rejects; assumption.
Qed.

(** With raw value 0 the getter of the evaporator temperature computes
    [0 + (uint64_t)-40], converts it to the [float] [2 ^ 64] and fails its
    range test. *)
Example Get_AC4_Front_EVAP_Temp_raw_0 :
  physical_of_raw AC4_Front_EVAP_Temp 0 = F32.of_Z (2 ^ 64)
  /\ Get_signal AC4_Front_EVAP_Temp
       {| id := 0x57C; dlc := 8; data := [0; 0; 0; 0; 0; 0; 0; 0] |} S754_nan
     = (false, F32.of_Z (2 ^ 64)).
Proof. split; vm_compute; reflexivity. Qed.

(** * The properties of the specification *)

(** C1.  Round trip of a raw value through setter and getter.  The code
    does not have the property: for the 16-bit engine speed and the raw
    value 2 (physical value 0.5, inside [0, 16383.75]) the setter converts
    the value back to raw 2 and returns [true], but of the sixteen
    iterations of its loop only those with [i = 0] and [i = 8] address a
    bit of the payload; the getter then assembles the raw value 0 and
    reports the physical value 0. *)
Theorem EngineSpeed_roundtrip_loses_raw_2 :
  in_range EMS3_N_EngineSpeed (physical_of_raw EMS3_N_EngineSpeed 2) = true
  /\ raw_of_physical EMS3_N_EngineSpeed
       (physical_of_raw EMS3_N_EngineSpeed 2) = Some 2
  /\ exists f1,
       Set_EMS3_N_EngineSpeed zero_frame
         (physical_of_raw EMS3_N_EngineSpeed 2) = Some (true, f1)
       /\ extract_raw EMS3_N_EngineSpeed (data f1) = 0
       /\ Get_EMS3_N_EngineSpeed f1 S754_nan = (true, S754_zero false).
Proof.
  split; [vm_compute; reflexivity|].
  split; [vm_compute; reflexivity|].
  eexists. split; [vm_compute; reflexivity|].
  split; vm_compute; reflexivity.
Qed.

(** C2.  The bit walk of the accessors against the big-endian (Motorola)
    layout of the specification.  They differ: on a payload whose only set
    bit is bit 6 of byte 4, the 16-bit walk of the engine speed (start at
    byte 4, bit 7) reads 0, the reference layout reads [0x4000]. *)
Theorem EngineSpeed_walk_differs_from_motorola :
  extract_raw EMS3_N_EngineSpeed [0; 0; 0; 0; 0x40; 0; 0; 0] = 0
  /\ motorola_extract (base_byte EMS3_N_EngineSpeed)
       (base_bit EMS3_N_EngineSpeed) (bit_length EMS3_N_EngineSpeed)
       [0; 0; 0; 0; 0x40; 0; 0; 0] = 0x4000.
Proof. split; vm_compute; reflexivity. Qed.

(** C3.  Decoding the engine temperature from a frame of message 0x320
    with [data[2] = 0x98].  The getter returns [true] but writes -47.25,
    not 66.0: its loop takes bit 7 of the byte as bit 0 of the raw value and
    reads the other seven bits beyond the byte, so the raw value is 1. *)
Theorem Get_EngineTemp_0x98_gives_minus_47_25 :
  Get_EMS2_N_EngineTemp
    {| id := 0x320; dlc := 8; data := [0; 0; 0x98; 0; 0; 0; 0; 0] |} S754_nan
  = (true, SFopp (float_of_decimal 4725 2))
  /\ SFeqb (SFopp (float_of_decimal 4725 2)) (float_of_decimal 660 1) = false.
Proof. split; vm_compute; reflexivity. Qed.

(** C4.  Encoding the vehicle speed 100.00 and decoding it again.  The
    setter computes the raw value 10000 and returns [true], but stores only
    bits 0, 1, 8 and 9 of it; the getter returns [true] with the value 7.68
    (raw 768), not 100.00. *)
Theorem VehicleSpeed_100_decodes_as_7_68 :
  raw_of_physical BR1_N_VehicleSpeed (float_of_decimal 10000 2) = Some 10000
  /\ exists f1,
       Set_BR1_N_VehicleSpeed zero_frame (float_of_decimal 10000 2)
       = Some (true, f1)
       /\ data f1 = [0; 0; 0; 0xC0; 0; 0; 0; 0]
       /\ Get_BR1_N_VehicleSpeed f1 S754_nan = (true, float_of_decimal 768 2)
       /\ SFeqb (float_of_decimal 768 2) (float_of_decimal 10000 2) = false.
Proof.
  split; [vm_compute; reflexivity|].
  eexists. split; [vm_compute; reflexivity|].
  repeat split; vm_compute; reflexivity.
Qed.

(** C5.  Non-interference within a message.  For two different signals [a]
    and [b] of one message (their walks reach disjoint payload bits, see
    [signal_table_disjoint]) and values inside their ranges: encoding [a]
    and then [b] into a frame succeeds both times, the second call changes
    none of the payload bits that the getter of [a] reads, and the getter of
    [a] returns the same flag and value after [b] was encoded as before. *)
Theorem set_other_signal_preserves_get
    (a b : signal) (f : CAN_Frame) (va vb v0 : spec_float) :
  In a signal_table -> In b signal_table -> a <> b ->
  message_id a = message_id b ->
  wf_frame f ->
  F32.valid va = true -> in_range a va = true ->
  F32.valid vb = true -> in_range b vb = true ->
  exists f1 f2,
    Set_signal a f va = Some (true, f1)
    /\ Set_signal b f1 vb = Some (true, f2)
    /\ (forall k j, In (k, j) (touched a) ->
          Z.testbit (load (data f2) k) j = Z.testbit (load (data f1) k) j)
    /\ extract_raw a (data f2) = extract_raw a (data f1)
    /\ Get_signal a f2 v0 = Get_signal a f1 v0.
Proof.
  intros Ha Hb Hne Hid Hwf Hva Hina Hvb Hinb.
  pose proof (table_pair_disjoint a b Ha Hb Hne Hid) as Hdis.
  pose proof (signal_table_ok a Ha) as Oka.
  pose proof (signal_table_ok b Hb) as Okb.
  destruct (Set_signal_accepts a va (signal_table_fp_ok a Ha) Hva Hina)
    as (ra & _ & Hsa).
  destruct (Set_signal_accepts b vb (signal_table_fp_ok b Hb) Hvb Hinb)
    as (rb & _ & Hsb).
  eexists. eexists. split; [apply Hsa|]. split; [apply Hsb|]. cbn [data id].
  assert (Hd : Forall byte_ok (insert_raw a ra (data f)))
    by (apply insert_raw_ok, Hwf).
  assert (Hx : extract_raw a (insert_raw b rb (insert_raw a ra (data f)))
               = extract_raw a (insert_raw a ra (data f)))
    by (apply extract_insert_disjoint; assumption).
  split; [|split].
  - intros k j Hin.
    pose proof (proj1 (touched_spec a k j) Hin) as (i & Hi & Hk & Hj & Hlt).
    destruct (signal_ok_spec a Oka) as (_ & Hba & _).
    destruct (signal_ok_spec b Okb) as (_ & Hbb & _).
    pose proof (bit_pos_nonneg a i ltac:(lia) ltac:(lia)).
    apply insert_raw_bit_other; try lia.
    intros i' Hi' E. inversion E as [[E1 E2]].
    apply (spans_disjoint_spec a b (k, j) Hdis Hin).
    apply touched_spec. exists i'. auto.
  - exact Hx.
  - unfold Get_signal; cbn [data id]. rewrite Hx, Hid. reflexivity.
Qed.

Lemma set_other_signal_preserves_get_witness :
  exists f1 f2,
    Set_EMS2_St_ACON sample_frame (F32.of_Z 1) = Some (true, f1)
    /\ Set_EMS2_N_EngineTemp f1 (float_of_decimal 660 1) = Some (true, f2)
    /\ (forall k j, In (k, j) (touched EMS2_St_ACON) ->
          Z.testbit (load (data f2) k) j = Z.testbit (load (data f1) k) j)
    /\ extract_raw EMS2_St_ACON (data f2) = extract_raw EMS2_St_ACON (data f1)
    /\ Get_EMS2_St_ACON f2 S754_nan = Get_EMS2_St_ACON f1 S754_nan.
Proof.
  apply (set_other_signal_preserves_get EMS2_St_ACON EMS2_N_EngineTemp
           sample_frame (F32.of_Z 1) (float_of_decimal 660 1) S754_nan).
  - apply in_table_b. vm_compute. reflexivity.
  - apply in_table_b. vm_compute. reflexivity.
  - intros E. apply (f_equal bit_length) in E. discriminate E.
  - reflexivity.
  - constructor; simpl; try lia; try reflexivity.
    repeat constructor; unfold byte_ok; lia.
  - vm_compute. reflexivity.
  - vm_compute. reflexivity.
  - vm_compute. reflexivity.
  - vm_compute. reflexivity.
Defined.

(** C6.  Range enforcement at the bounds.  The setter of the vehicle speed
    called with its own upper bound [327.66] returns [false] and leaves the
    frame alone: the argument is converted to [float], which gives
    327.660003662109375, and the test [value > 327.66] compares that with
    the [double] 327.66.  (Values below the lower or above the upper bound
    are rejected by every setter, [Set_signal_rejects]; the lower bound is
    accepted by every setter, [table_accepts_min]; the upper bound by every
    other setter, [table_accepts_max].) *)
Theorem Set_VehicleSpeed_rejects_its_max (f : CAN_Frame) :
  Set_BR1_N_VehicleSpeed f (float_of_decimal 32766 2) = Some (false, f)
  /\ float_of_decimal 32766 2 = max_as_float BR1_N_VehicleSpeed.
Proof.
  split; [|reflexivity].
  unfold Set_BR1_N_VehicleSpeed. apply Set_signal_rejects.
  vm_compute. reflexivity.
Qed.

(** C7.  Encode atomicity: a setter that returns [false] has rejected the
    value in its range test and has left the whole frame (identifier,
    length code and the eight payload bytes) as it was. *)
Theorem failed_set_leaves_frame
    (s : signal) (f f' : CAN_Frame) (v : spec_float) :
  Set_signal s f v = Some (false, f') ->
  out_of_range s v = true
  /\ f' = f /\ id f' = id f /\ dlc f' = dlc f /\ data f' = data f.
Proof.
  unfold Set_signal. destruct (out_of_range s v).
  - intros H. inversion H. auto.
  - destruct (raw_of_physical s v); discriminate.
Qed.

Lemma failed_set_leaves_frame_witness :
  Set_EMS3_N_EngineSpeed sample_frame (F32.of_Z 20000)
  = Some (false, sample_frame)
  /\ out_of_range EMS3_N_EngineSpeed (F32.of_Z 20000) = true
  /\ sample_frame = sample_frame
  /\ id sample_frame = id sample_frame
  /\ dlc sample_frame = dlc sample_frame
  /\ data sample_frame = data sample_frame.
Proof.
  assert (H : Set_EMS3_N_EngineSpeed sample_frame (F32.of_Z 20000)
              = Some (false, sample_frame)) by (vm_compute; reflexivity).
  split; [exact H|].
  exact (failed_set_leaves_frame EMS3_N_EngineSpeed sample_frame sample_frame
           (F32.of_Z 20000) H).
Defined.

(** C8.  Identifier gating: a getter called on a frame whose identifier is
    not the message identifier of its signal returns [false], whatever the
    payload is, and does not write through [value]. *)
Theorem get_wrong_id_fails (s : signal) (f : CAN_Frame) (v0 : spec_float) :
  id f <> message_id s -> Get_signal s f v0 = (false, v0).
Proof.
  intros H. unfold Get_signal.
  destruct (Z.eqb_spec (id f) (message_id s)); [contradiction|reflexivity].
Qed.

Lemma get_wrong_id_fails_witness :
  id sample_frame <> message_id EMS3_N_EngineSpeed
  /\ Get_EMS3_N_EngineSpeed sample_frame S754_nan = (false, S754_nan).
Proof.
  assert (H : id sample_frame <> message_id EMS3_N_EngineSpeed)
    by (simpl; lia).
  split; [exact H|].
  exact (get_wrong_id_fails EMS3_N_EngineSpeed sample_frame S754_nan H).
Defined.

(** C9.  A setter that returns [true] has set the identifier to the
    message identifier of its signal and the length code to 8; the payload
    keeps its length, every byte that the walk does not index has its old
    value, and so has every bit that is not a position of the walk. *)
Theorem successful_set_effect
    (s : signal) (f f' : CAN_Frame) (v : spec_float) :
  In s signal_table ->
  Set_signal s f v = Some (true, f') ->
  id f' = message_id s /\ dlc f' = 8
  /\ length (data f') = length (data f)
  /\ (forall k, (forall i, 0 <= i < bit_length s -> byte_pos s i <> k) ->
        load (data f') k = load (data f) k)
  /\ (forall k j, 0 <= j < 8 ->
        (forall i, 0 <= i < bit_length s ->
           (byte_pos s i, bit_pos s i) <> (k, j)) ->
        Z.testbit (load (data f') k) j = Z.testbit (load (data f) k) j).
Proof.
  intros Hs H. apply Set_signal_true in H as (raw & _ & ->). simpl.
  destruct (signal_ok_spec s (signal_table_ok s Hs)) as (_ & Hb & _).
  repeat split.
  - apply insert_raw_length.
  - intros k Hk. apply insert_raw_byte_other, Hk.
  - intros k j Hj Hk. apply insert_raw_bit_other; try lia. exact Hk.
Qed.

Lemma successful_set_effect_witness :
  let f' := {| id := 0x320; dlc := 8;
               data := [0x11; 0x22; 0xB3; 0x44; 0x55; 0x66; 0x77; 0x88] |} in
  Set_EMS2_N_EngineTemp sample_frame (SFopp (float_of_decimal 4725 2))
  = Some (true, f')
  /\ id f' = message_id EMS2_N_EngineTemp /\ dlc f' = 8
  /\ length (data f') = length (data sample_frame)
  /\ (forall k, (forall i, 0 <= i < bit_length EMS2_N_EngineTemp ->
                   byte_pos EMS2_N_EngineTemp i <> k) ->
        load (data f') k = load (data sample_frame) k)
  /\ (forall k j, 0 <= j < 8 ->
        (forall i, 0 <= i < bit_length EMS2_N_EngineTemp ->
           (byte_pos EMS2_N_EngineTemp i, bit_pos EMS2_N_EngineTemp i)
           <> (k, j)) ->
        Z.testbit (load (data f') k) j
        = Z.testbit (load (data sample_frame) k) j).
Proof.
  intros f'.
  assert (H : Set_EMS2_N_EngineTemp sample_frame
                (SFopp (float_of_decimal 4725 2))
              = Some (true, f')) by (vm_compute; reflexivity).
  split; [exact H|].
  refine (successful_set_effect EMS2_N_EngineTemp sample_frame f'
            (SFopp (float_of_decimal 4725 2)) _ H).
  apply in_table_b. vm_compute. reflexivity.
Defined.

(** C10.  Setters do not look at the frame they are given: for a signal of
    the file and a [float] between its bounds, the setter returns [true] on
    every frame, whatever identifier, length code and payload the frame
    held; the conversion to [uint64_t] is defined and gives one raw value,
    the same for all frames. *)
Theorem set_in_range_succeeds (s : signal) (v : spec_float) :
  In s signal_table -> F32.valid v = true -> in_range s v = true ->
  exists raw,
    raw_of_physical s v = Some raw
    /\ forall f : CAN_Frame,
         Set_signal s f v
         = Some (true, {| id := message_id s; dlc := 8;
                          data := insert_raw s raw (data f) |}).
Proof.
  intros Hs Hv Hin.
  apply Set_signal_accepts; [apply signal_table_fp_ok, Hs|assumption..].
Qed.

Lemma set_in_range_succeeds_witness :
  exists raw,
    raw_of_physical EMS3_F_EngineSpeed (F32.of_Z 1) = Some raw
    /\ forall f : CAN_Frame,
         Set_EMS3_F_EngineSpeed f (F32.of_Z 1)
         = Some (true, {| id := message_id EMS3_F_EngineSpeed; dlc := 8;
                          data := insert_raw EMS3_F_EngineSpeed raw (data f) |}).
Proof.
  apply (set_in_range_succeeds EMS3_F_EngineSpeed (F32.of_Z 1)).
  - apply in_table_b. vm_compute. reflexivity.
  - vm_compute. reflexivity.
  - vm_compute. reflexivity.
Defined.

(** * Further properties of the accessors *)

(** ** Payloads compared bit by bit *)

Lemma load_ext (d d' : list Z) :
  length d = length d' ->
  (forall k, 0 <= k < Z.of_nat (length d) -> load d k = load d' k) ->
  d = d'.
Proof.
  intros Hlen H. apply (nth_ext d d' 0 0 Hlen). intros n Hn.
  specialize (H (Z.of_nat n) ltac:(lia)). unfold load in H.
  rewrite <- Hlen in H.
  destruct (Z.leb_spec 0 (Z.of_nat n)); [|lia].
  destruct (Z.ltb_spec (Z.of_nat n) (Z.of_nat (length d))); [|lia].
  cbn [andb] in H. rewrite Nat2Z.id in H. exact H.
Qed.

Lemma byte_ext (x y : Z) :
  byte_ok x -> byte_ok y ->
  (forall j, 0 <= j < 8 -> Z.testbit x j = Z.testbit y j) -> x = y.
Proof.
  intros Hx Hy H. apply Z.bits_inj'. intros j Hj.
  destruct (Z_lt_ge_dec j 8) as [Hlt|Hge].
  - apply H. lia.
  - rewrite !byte_ok_high by (assumption || lia). reflexivity.
Qed.

Lemma payload_ext (d d' : list Z) :
  length d = length d' -> Forall byte_ok d -> Forall byte_ok d' ->
  (forall k j, 0 <= k < Z.of_nat (length d) -> 0 <= j < 8 ->
     Z.testbit (load d k) j = Z.testbit (load d' k) j) ->
  d = d'.
Proof.
  intros Hlen Hd Hd' H. apply load_ext; [assumption|]. intros k Hk.
  apply byte_ext; try (apply load_ok; assumption).
  intros j Hj. apply H; assumption.
Qed.

(** ** The position of a payload bit in a walk *)

Lemma pos_eqb_eq (p q : Z * Z) : pos_eqb p q = true <-> p = q.
Proof.
  destruct p as [a b], q as [c d]. unfold pos_eqb. cbn [fst snd].
  rewrite Bool.andb_true_iff, !Z.eqb_eq. split.
  - intros [-> ->]. reflexivity.
  - intros E. inversion E. auto.
Qed.

Lemma walk_index_some (s : signal) (k j i : Z) :
  walk_index s k j = Some i ->
  0 <= i < bit_length s /\ byte_pos s i = k /\ bit_pos s i = j.
Proof.
  unfold walk_index. intros H. apply find_some in H as [Hin E].
  apply in_loop_range in Hin. apply pos_eqb_eq in E. inversion E. auto.
Qed.

Lemma walk_index_none (s : signal) (k j : Z) :
  walk_index s k j = None ->
  forall i, 0 <= i < bit_length s -> (byte_pos s i, bit_pos s i) <> (k, j).
Proof.
  unfold walk_index. intros H i Hi E.
  pose proof (find_none _ _ H i (proj2 (in_loop_range _ i) Hi)) as Hf.
  cbv beta in Hf. rewrite (proj2 (pos_eqb_eq _ _) E) in Hf. discriminate.
Qed.

(** Every payload bit after the loop of a setter: bit [i] of the raw value
    at the [i]-th position of the walk, the old bit elsewhere. *)
Lemma insert_raw_testbit (s : signal) (raw : Z) (d : list Z) (k j : Z) :
  signal_ok s = true -> length d = 8%nat -> 0 <= j < 8 ->
  Z.testbit (load (insert_raw s raw d) k) j =
  match walk_index s k j with
  | Some i => Z.testbit raw i
  | None => Z.testbit (load d k) j
  end.
Proof.
  intros Hok Hlen Hj.
  destruct (signal_ok_spec s Hok) as (Hl & Hb & Hbyte).
  destruct (walk_index s k j) as [i|] eqn:E.
  - apply walk_index_some in E as (Hi & <- & <-).
    apply insert_raw_bit_at; try lia.
    rewrite Hlen. specialize (Hbyte i Hi). lia.
  - apply insert_raw_bit_other; try lia. apply walk_index_none, E.
Qed.

(** A setter's loop run on the raw value that the getter's loop reads
    from the same payload changes nothing. *)
Lemma insert_extract_same (s : signal) (d : list Z) :
  signal_ok s = true -> length d = 8%nat -> Forall byte_ok d ->
  insert_raw s (extract_raw s d) d = d.
Proof.
  intros Hok Hlen Hd.
  destruct (signal_ok_spec s Hok) as (Hl & Hb & Hbyte).
  apply payload_ext.
  - apply insert_raw_length.
  - apply insert_raw_ok, Hd.
  - exact Hd.
  - rewrite insert_raw_length. intros k j Hk Hj.
    rewrite insert_raw_testbit by assumption.
    destruct (walk_index s k j) as [i|] eqn:E; [|reflexivity].
    apply walk_index_some in E as (Hi & <- & <-).
    rewrite extract_raw_testbit by lia.
    destruct (Z.ltb_spec i (bit_length s)); [reflexivity|lia].
Qed.

(** Of two runs of the same setter's loop the second decides. *)
Lemma insert_insert_same (s : signal) (r1 r2 : Z) (d : list Z) :
  signal_ok s = true -> length d = 8%nat -> Forall byte_ok d ->
  insert_raw s r2 (insert_raw s r1 d) = insert_raw s r2 d.
Proof.
  intros Hok Hlen Hd. apply payload_ext.
  - rewrite !insert_raw_length. reflexivity.
  - apply insert_raw_ok, insert_raw_ok, Hd.
  - apply insert_raw_ok, Hd.
  - rewrite !insert_raw_length. intros k j Hk Hj.
    rewrite !insert_raw_testbit
      by (assumption || (rewrite insert_raw_length; assumption)).
    destruct (walk_index s k j); reflexivity.
Qed.

Lemma spans_disjoint_index (a b : signal) (k j i i' : Z) :
  spans_disjoint a b = true -> 0 <= j < 8 ->
  walk_index a k j = Some i -> walk_index b k j = Some i' -> False.
Proof.
  intros Hdis Hj Ha Hb.
  apply walk_index_some in Ha as (Hi & Hk & Hp).
  apply walk_index_some in Hb as (Hi' & Hk' & Hp').
  apply (spans_disjoint_spec a b (k, j) Hdis).
  - apply touched_spec. exists i. repeat split; lia || assumption.
  - apply touched_spec. exists i'. repeat split; lia || assumption.
Qed.

(** The loops of two setters with disjoint walks commute. *)
Lemma insert_raw_commute (a b : signal) (ra rb : Z) (d : list Z) :
  signal_ok a = true -> signal_ok b = true -> spans_disjoint a b = true ->
  length d = 8%nat -> Forall byte_ok d ->
  insert_raw b rb (insert_raw a ra d) = insert_raw a ra (insert_raw b rb d).
Proof.
  intros Ha Hb Hdis Hlen Hd. apply payload_ext.
  - rewrite !insert_raw_length. reflexivity.
  - apply insert_raw_ok, insert_raw_ok, Hd.
  - apply insert_raw_ok, insert_raw_ok, Hd.
  - rewrite !insert_raw_length. intros k j Hk Hj.
    rewrite !insert_raw_testbit
      by (assumption || (rewrite insert_raw_length; assumption)).
    destruct (walk_index a k j) as [i|] eqn:Ea;
      destruct (walk_index b k j) as [i'|] eqn:Eb; try reflexivity.
    exfalso. exact (spans_disjoint_index a b k j i i' Hdis Hj Ea Eb).
Qed.

(** ** The raw values of a getter *)

Lemma submasks_of_complete (bits : list Z) (r : Z) :
  (forall i, In i bits -> 0 <= i) ->
  (forall n, 0 <= n -> Z.testbit r n = true -> In n bits) ->
  In r (submasks_of bits).
Proof.
  revert r. induction bits as [|i bits IH]; intros r Hpos H.
  - left. symmetry. apply Z.bits_inj'. intros n Hn.
    rewrite Z.testbit_0_l. destruct (Z.testbit r n) eqn:E; [|reflexivity].
    destruct (H n Hn E).
  - cbn [submasks_of fold_right]. fold (submasks_of bits).
    assert (Hi : 0 <= i) by (apply Hpos; left; reflexivity).
    assert (Hpos' : forall x, In x bits -> 0 <= x)
      by (intros x Hx; apply Hpos; right; assumption).
    apply in_or_app.
    destruct (Z.testbit r i) eqn:E.
    + right. apply in_map_iff. exists (Z.clearbit r i). split.
      * apply Z.bits_inj'. intros n Hn.
        destruct (Z.eq_dec n i) as [->|Hne].
        -- rewrite Z.setbit_eq by lia. symmetry. exact E.
        -- rewrite Z.setbit_neq, Z.clearbit_neq by lia. reflexivity.
      * apply IH; [assumption|]. intros n Hn Hb.
        destruct (Z.eq_dec n i) as [->|Hne].
        -- rewrite Z.clearbit_eq in Hb by lia. discriminate.
        -- rewrite Z.clearbit_neq in Hb by lia.
           destruct (H n Hn Hb) as [<-|Hin]; [congruence|assumption].
    + left. apply IH; [assumption|]. intros n Hn Hb.
      destruct (H n Hn Hb) as [<-|Hin]; [congruence|assumption].
Qed.

(** The raw value a getter assembles from a well-formed payload has bits
    only where the walk is inside a byte. *)
Lemma extract_raw_reachable (s : signal) (d : list Z) :
  signal_ok s = true -> Forall byte_ok d ->
  In (extract_raw s d) (reachable_raws s).
Proof.
  intros Hok Hd. destruct (signal_ok_spec s Hok) as (Hl & Hb & _).
  apply submasks_of_complete.
  - intros i Hi. unfold walk_bits in Hi. apply filter_In in Hi as [Hi _].
    apply in_loop_range in Hi. lia.
  - intros n Hn Hbit. rewrite extract_raw_testbit in Hbit by lia.
    apply andb_prop in Hbit as [Hlt Hbit]. apply Z.ltb_lt in Hlt.
    unfold walk_bits. apply filter_In. split; [apply in_loop_range; lia|].
    apply Z.ltb_lt. destruct (Z_lt_ge_dec (bit_pos s n) 8); [assumption|].
    rewrite byte_ok_high in Hbit; [discriminate|apply load_ok, Hd|lia].
Qed.

(** What every getter computes from the raw values it can assemble:
    except for two signals its range test passes; whenever it passes, the
    value is a [float] between the bounds and the conversion of the setter
    gives back the raw value. *)
Lemma reachable_raws_table :
  forallb (fun s =>
    forallb (fun r =>
      let v := physical_of_raw s r in
      if out_of_range s v then
        signal_eqb s TBOX1_St_CLM || signal_eqb s AC4_Front_EVAP_Temp
      else
        F32.valid v && in_range s v
        && match raw_of_physical s v with
           | Some r' => r' =? r
           | None => false
           end) (reachable_raws s)) signal_table = true.
Proof. vm_compute. reflexivity. Qed.

Lemma reachable_raw_facts (s : signal) (r : Z) :
  In s signal_table -> In r (reachable_raws s) ->
  (out_of_range s (physical_of_raw s r) = true ->
     s = TBOX1_St_CLM \/ s = AC4_Front_EVAP_Temp)
  /\ (out_of_range s (physical_of_raw s r) = false ->
        F32.valid (physical_of_raw s r) = true
        /\ in_range s (physical_of_raw s r) = true
        /\ raw_of_physical s (physical_of_raw s r) = Some r).
Proof.
  intros Hs Hr. pose proof reachable_raws_table as H.
  rewrite forallb_forall in H. specialize (H s Hs).
  rewrite forallb_forall in H. specialize (H r Hr). cbv zeta in H.
  destruct (out_of_range s (physical_of_raw s r)).
  - split; [|discriminate]. intros _.
    apply orb_prop in H as [E|E]; apply signal_eqb_eq in E; auto.
  - split; [discriminate|]. intros _.
    apply andb_prop in H as [H H3]. apply andb_prop in H as [H1 H2].
    destruct (raw_of_physical s (physical_of_raw s r)) as [r'|];
      [|discriminate].
    apply Z.eqb_eq in H3. subst. auto.
Qed.

(** ** Getters and setters on well-formed frames *)

Ltac in_table := apply in_table_b; vm_compute; reflexivity.

Ltac frame_wf :=
  constructor; simpl;
  [lia | lia | reflexivity | repeat constructor; unfold byte_ok; lia].

Lemma Get_signal_id (s : signal) (f : CAN_Frame) (v0 : spec_float) :
  id f = message_id s ->
  Get_signal s f v0 =
  (negb (out_of_range s (physical_of_raw s (extract_raw s (data f)))),
   physical_of_raw s (extract_raw s (data f))).
Proof.
  intros H. unfold Get_signal. rewrite H, Z.eqb_refl. cbn [negb]. cbv zeta.
  destruct (out_of_range s _); reflexivity.
Qed.

Lemma Get_signal_true (s : signal) (f : CAN_Frame) (v0 v : spec_float) :
  Get_signal s f v0 = (true, v) ->
  id f = message_id s
  /\ v = physical_of_raw s (extract_raw s (data f))
  /\ out_of_range s v = false.
Proof.
  unfold Get_signal. destruct (Z.eqb_spec (id f) (message_id s)) as [E|E];
    cbn [negb]; [|discriminate].
  cbv zeta. destruct (out_of_range s _) eqn:Ho; [discriminate|].
  intros H. inversion H. subst. auto.
Qed.

Lemma SFcompare_some (a b : spec_float) :
  a <> S754_nan -> b <> S754_nan -> SFcompare a b <> None.
Proof.
  destruct a as [?|?| |? ? ?], b as [?|?| |? ? ?]; cbn [SFcompare];
    congruence.
Qed.

Lemma SFleb_negb_ltb (a b : spec_float) :
  a <> S754_nan -> b <> S754_nan -> SFleb a b = negb (SFltb b a).
Proof.
  intros Ha Hb. pose proof (SFcompare_some a b Ha Hb) as H.
  unfold SFleb, SFltb. rewrite (SFcompare_antisym a b).
  destruct (SFcompare a b) as [[]|]; simpl; congruence.
Qed.

Lemma F64_of_float_not_nan (v : spec_float) :
  F32.valid v = true -> v <> S754_nan -> F64.of_float v <> S754_nan.
Proof.
  intros Hv Hn. destruct v as [s|s| |s m e]; try (cbn; congruence).
  destruct (F64_of_float_exact s m e Hv) as (mz & ->). congruence.
Qed.

(** For a [float] that is not a NaN the range test of the accessors is the
    negation of [min <= value <= max]. *)
Lemma in_range_negb_out (s : signal) (v : spec_float) :
  fp_ok s = true -> F32.valid v = true -> v <> S754_nan ->
  in_range s v = negb (out_of_range s v).
Proof.
  unfold fp_ok, in_range, out_of_range, c_gt. intros Hok Hv Hn.
  apply andb_prop in Hok as [Hok _]. apply andb_prop in Hok as [Hoff Hmax].
  destruct (offset s) as [o|]; [|discriminate].
  destruct (sig_min s) as [o'|]; [|discriminate].
  apply andb_prop in Hoff as [Heq Hoff]. apply Z.eqb_eq in Heq. subst o'.
  rewrite Bool.negb_orb.
  assert (Ho : F32.of_Z o <> S754_nan).
  { apply offset_ok_inv in Hoff as [E|(so & mo & eo & E & _)];
      rewrite E; congruence. }
  f_equal.
  - cbn [eval_lit c_le c_lt compare_with as_float].
    apply SFleb_negb_ltb; assumption.
  - destruct (sig_max s) as [M|n k];
      apply max_ok_inv in Hmax as (mM & eM & E & _);
      cbn [eval_lit c_le c_lt compare_with as_float as_double].
    + apply SFleb_negb_ltb; [assumption|rewrite E; congruence].
    + apply SFleb_negb_ltb;
        [apply F64_of_float_not_nan; assumption|rewrite E; congruence].
Qed.

(** X1.  What a getter that returns [true] has written: a [float] that lies
    between the bounds of the signal, computed from one of the raw values
    whose bits are all at positions of the walk inside a byte. *)
Theorem get_true_in_range (s : signal) (f : CAN_Frame) (v0 v : spec_float) :
  In s signal_table -> wf_frame f ->
  Get_signal s f v0 = (true, v) ->
  F32.valid v = true /\ in_range s v = true
  /\ In v (map (physical_of_raw s) (reachable_raws s)).
Proof.
  intros Hs Hwf H. apply Get_signal_true in H as (_ & -> & Hout).
  pose proof (extract_raw_reachable s (data f) (signal_table_ok s Hs)
                (wf_bytes f Hwf)) as Hr.
  destruct (reachable_raw_facts s _ Hs Hr) as (_ & Hin).
  destruct (Hin Hout) as (H1 & H2 & _).
  repeat split; try assumption. apply in_map, Hr.
Qed.

Lemma get_true_in_range_witness :
  let f := {| id := 0x347; dlc := 8;
              data := [0; 0; 0x14; 0; 0; 0; 0; 0] |} in
  Get_AUDIO7_St_FlowModeVoiceControl f S754_nan = (true, F32.of_Z 5)
  /\ F32.valid (F32.of_Z 5) = true
  /\ in_range AUDIO7_St_FlowModeVoiceControl (F32.of_Z 5) = true
  /\ In (F32.of_Z 5)
        (map (physical_of_raw AUDIO7_St_FlowModeVoiceControl)
             (reachable_raws AUDIO7_St_FlowModeVoiceControl)).
Proof.
  intros f.
  assert (H : Get_AUDIO7_St_FlowModeVoiceControl f S754_nan
              = (true, F32.of_Z 5)) by (vm_compute; reflexivity).
  split; [exact H|].
  refine (get_true_in_range AUDIO7_St_FlowModeVoiceControl f S754_nan
            (F32.of_Z 5) _ _ H).
  - in_table.
  - frame_wf.
Defined.

(** X2.  A getter reads nothing but the identifier and the payload bits of
    its own walk: two well-formed frames with the same identifier that agree
    on those bits give the same result, whatever their length codes and
    other payload bits are. *)
Theorem get_depends_on_touched_bits
    (s : signal) (f f' : CAN_Frame) (v0 : spec_float) :
  In s signal_table -> wf_frame f -> wf_frame f' ->
  id f = id f' ->
  (forall k j, In (k, j) (touched s) ->
     Z.testbit (load (data f) k) j = Z.testbit (load (data f') k) j) ->
  Get_signal s f v0 = Get_signal s f' v0.
Proof.
  intros Hs Hwf Hwf' Hid Hbits.
  destruct (signal_ok_spec s (signal_table_ok s Hs)) as (_ & Hb & _).
  assert (Hx : extract_raw s (data f) = extract_raw s (data f')).
  { apply extract_raw_ext. intros i Hi.
    pose proof (bit_pos_nonneg s i ltac:(lia) ltac:(lia)) as Hp.
    destruct (Z_lt_ge_dec (bit_pos s i) 8) as [Hlt|Hge].
    - rewrite !GET_BIT_testbit by lia. f_equal. apply Hbits.
      apply touched_spec. exists i. auto.
    - rewrite !GET_BIT_beyond; try lia; try reflexivity;
        apply load_ok; [apply Hwf'|apply Hwf]. }
  unfold Get_signal. rewrite Hid, Hx. reflexivity.
Qed.

Lemma get_depends_on_touched_bits_witness :
  let f := {| id := 0x36C; dlc := 8;
              data := [0; 0; 0; 0; 0x28; 0; 0; 0] |} in
  let f' := {| id := 0x36C; dlc := 2;
               data := [0xFF; 0xFF; 0xFF; 0xFF; 0xAF; 0xFF; 0xFF; 0xFF] |} in
  Get_AC1_St_Blower f S754_nan = Get_AC1_St_Blower f' S754_nan.
Proof.
  intros f f'.
  apply (get_depends_on_touched_bits AC1_St_Blower f f' S754_nan).
  - in_table.
  - frame_wf.
  - frame_wf.
  - reflexivity.
  - intros k j Hin. vm_compute in Hin.
    repeat (destruct Hin as [E|Hin]; [inversion E; subst; reflexivity|]).
    destruct Hin.
Defined.

(** X3.  Encoding the value that a getter has just decoded from a frame
    succeeds and leaves identifier and payload as they are; only the
    length code is set to 8. *)
Theorem get_then_set_is_identity
    (s : signal) (f : CAN_Frame) (v0 v : spec_float) :
  In s signal_table -> wf_frame f ->
  Get_signal s f v0 = (true, v) ->
  Set_signal s f v = Some (true, {| id := id f; dlc := 8; data := data f |}).
Proof.
  intros Hs Hwf H. apply Get_signal_true in H as (Hid & -> & Hout).
  pose proof (extract_raw_reachable s (data f) (signal_table_ok s Hs)
                (wf_bytes f Hwf)) as Hr.
  destruct (reachable_raw_facts s _ Hs Hr) as (_ & Hin).
  destruct (Hin Hout) as (_ & _ & Hraw).
  unfold Set_signal. rewrite Hout, Hraw, Hid.
  rewrite insert_extract_same;
    [reflexivity|apply signal_table_ok, Hs|apply Hwf|apply Hwf].
Qed.

Lemma get_then_set_is_identity_witness :
  let f := {| id := 0x363; dlc := 5;
              data := [1; 2; 3; 4; 5; 0x06; 0xA6; 8] |} in
  Get_BCM1_N_PM25Value f S754_nan = (true, F32.of_Z 851)
  /\ Set_BCM1_N_PM25Value f (F32.of_Z 851)
     = Some (true, {| id := id f; dlc := 8; data := data f |}).
Proof.
  intros f.
  assert (H : Get_BCM1_N_PM25Value f S754_nan = (true, F32.of_Z 851))
    by (vm_compute; reflexivity).
  split; [exact H|].
  refine (get_then_set_is_identity BCM1_N_PM25Value f S754_nan
            (F32.of_Z 851) _ _ H).
  - in_table.
  - frame_wf.
Defined.

(** X4.  Of two successful calls of the same setter on a frame the second
    decides: the frame is the one that the second call alone would have
    produced.  In particular a setter called twice with the same value
    changes nothing the second time. *)
Theorem set_twice_keeps_last
    (s : signal) (f f1 f2 : CAN_Frame) (v1 v2 : spec_float) :
  In s signal_table -> wf_frame f ->
  Set_signal s f v1 = Some (true, f1) ->
  Set_signal s f v2 = Some (true, f2) ->
  Set_signal s f1 v2 = Some (true, f2).
Proof.
  intros Hs Hwf H1 H2.
  apply Set_signal_true in H1 as (r1 & _ & ->).
  pose proof H2 as H2'. apply Set_signal_true in H2' as (r2 & Hr2 & ->).
  unfold Set_signal in *. rewrite Hr2 in *.
  destruct (out_of_range s v2); [discriminate|]. cbn [data].
  rewrite insert_insert_same;
    [reflexivity|apply signal_table_ok, Hs|apply Hwf|apply Hwf].
Qed.

Lemma set_twice_keeps_last_witness :
  let f1 := {| id := 0x36C; dlc := 8;
               data := [0x11; 0x22; 0x33; 0x44; 0x4D; 0x66; 0x77; 0x88] |} in
  let f2 := {| id := 0x36C; dlc := 8;
               data := [0x11; 0x22; 0x33; 0x44; 0x35; 0x66; 0x77; 0x88] |} in
  Set_AC1_St_Blower sample_frame (F32.of_Z 9) = Some (true, f1)
  /\ Set_AC1_St_Blower sample_frame (F32.of_Z 6) = Some (true, f2)
  /\ Set_AC1_St_Blower f1 (F32.of_Z 6) = Some (true, f2).
Proof.
  intros f1 f2.
  assert (H1 : Set_AC1_St_Blower sample_frame (F32.of_Z 9) = Some (true, f1))
    by (vm_compute; reflexivity).
  assert (H2 : Set_AC1_St_Blower sample_frame (F32.of_Z 6) = Some (true, f2))
    by (vm_compute; reflexivity).
  split; [exact H1|]. split; [exact H2|].
  refine (set_twice_keeps_last AC1_St_Blower sample_frame f1 f2
            (F32.of_Z 9) (F32.of_Z 6) _ _ H1 H2).
  - in_table.
  - frame_wf.
Defined.

(** X5.  The setters of two different signals of one message commute:
    encoding [a] and then [b] gives the same frame as encoding [b] and then
    [a]. *)
Theorem sets_of_one_message_commute
    (a b : signal) (f fa fab : CAN_Frame) (va vb : spec_float) :
  In a signal_table -> In b signal_table -> a <> b ->
  message_id a = message_id b -> wf_frame f ->
  Set_signal a f va = Some (true, fa) ->
  Set_signal b fa vb = Some (true, fab) ->
  exists fb, Set_signal b f vb = Some (true, fb)
             /\ Set_signal a fb va = Some (true, fab).
Proof.
  intros Ha Hb Hne Hid Hwf H1 H2.
  pose proof (table_pair_disjoint a b Ha Hb Hne Hid) as Hdis.
  pose proof H1 as H1'. apply Set_signal_true in H1' as (ra & Hra & ->).
  pose proof H2 as H2'. apply Set_signal_true in H2' as (rb & Hrb & ->).
  unfold Set_signal in *. rewrite Hra, Hrb in *.
  destruct (out_of_range a va); [discriminate|].
  destruct (out_of_range b vb); [discriminate|].
  eexists. split; [reflexivity|]. cbn [data]. rewrite Hid.
  rewrite (insert_raw_commute a b ra rb (data f));
    [reflexivity|apply signal_table_ok, Ha|apply signal_table_ok, Hb
    |assumption|apply Hwf|apply Hwf].
Qed.

Lemma sets_of_one_message_commute_witness :
  let fa := {| id := 0x46C; dlc := 8;
               data := [0x11; 0x22; 0x33; 0x44; 0x55; 0x66; 0x77; 0x94] |} in
  let fab := {| id := 0x46C; dlc := 8;
                data := [0x11; 0x22; 0x33; 0x44; 0x55; 0x66; 0x77; 0x14] |} in
  Set_AC2_St_FLSeatHeating sample_frame (F32.of_Z 5) = Some (true, fa)
  /\ Set_AC2_St_RemoteControl fa (F32.of_Z 0) = Some (true, fab)
  /\ exists fb,
       Set_AC2_St_RemoteControl sample_frame (F32.of_Z 0) = Some (true, fb)
       /\ Set_AC2_St_FLSeatHeating fb (F32.of_Z 5) = Some (true, fab).
Proof.
  intros fa fab.
  assert (H1 : Set_AC2_St_FLSeatHeating sample_frame (F32.of_Z 5)
               = Some (true, fa)) by (vm_compute; reflexivity).
  assert (H2 : Set_AC2_St_RemoteControl fa (F32.of_Z 0) = Some (true, fab))
    by (vm_compute; reflexivity).
  split; [exact H1|]. split; [exact H2|].
  refine (sets_of_one_message_commute AC2_St_FLSeatHeating
            AC2_St_RemoteControl sample_frame fa fab (F32.of_Z 5)
            (F32.of_Z 0) _ _ _ _ _ H1 H2).
  - in_table.
  - in_table.
  - intros E. apply (f_equal bit_length) in E. discriminate E.
  - reflexivity.
  - frame_wf.
Defined.

(** X6.  Setters keep frames well-formed: whatever a setter returns, the
    frame after the call again has a 32-bit identifier, an 8-bit length
    code and eight payload bytes below 256. *)
Theorem set_keeps_frame_well_formed
    (s : signal) (f f' : CAN_Frame) (v : spec_float) (b : bool) :
  In s signal_table -> wf_frame f ->
  Set_signal s f v = Some (b, f') -> wf_frame f'.
Proof.
  intros Hs Hwf H. destruct b.
  - exact (Set_signal_wf s f f' v Hs Hwf H).
  - unfold Set_signal in H. destruct (out_of_range s v).
    + inversion H. subst. exact Hwf.
    + destruct (raw_of_physical s v); discriminate.
Qed.

Lemma set_keeps_frame_well_formed_witness :
  let f' := {| id := 0x326; dlc := 8;
               data := [0x11; 0x22; 0xB3; 0x44; 0x55; 0x66; 0x77; 0x88] |} in
  Set_TCM1_N_SLP sample_frame (F32.of_Z 13) = Some (true, f') /\ wf_frame f'.
Proof.
  intros f'.
  assert (H : Set_TCM1_N_SLP sample_frame (F32.of_Z 13) = Some (true, f'))
    by (vm_compute; reflexivity).
  split; [exact H|].
  refine (set_keeps_frame_well_formed TCM1_N_SLP sample_frame f'
            (F32.of_Z 13) true _ _ H).
  - in_table.
  - frame_wf.
Defined.

(** X7.  A setter claims the frame for its message: after a successful
    call, the getter of every signal of another message returns [false] on
    that frame and writes nothing. *)
Theorem set_other_message_blocks_get
    (a b : signal) (f f' : CAN_Frame) (v v0 : spec_float) :
  message_id a <> message_id b ->
  Set_signal b f v = Some (true, f') ->
  Get_signal a f' v0 = (false, v0).
Proof.
  intros Hne H. apply Set_signal_true in H as (raw & _ & ->).
  unfold Get_signal. cbn [id].
  destruct (Z.eqb_spec (message_id b) (message_id a)); [congruence|].
  reflexivity.
Qed.

Lemma set_other_message_blocks_get_witness :
  let f := {| id := 0x36C; dlc := 8;
              data := [0xFF; 0; 0; 0; 0; 0; 0; 0] |} in
  let f' := {| id := 0x46C; dlc := 8;
               data := [0xFF; 0; 0; 0; 0; 0; 0; 0] |} in
  message_id AC1_Checksum <> message_id AC2_Checksum
  /\ Set_AC2_Checksum f (F32.of_Z 255) = Some (true, f')
  /\ Get_AC1_Checksum f S754_nan = (true, F32.of_Z 1)
  /\ Get_AC1_Checksum f' S754_nan = (false, S754_nan).
Proof.
  intros f f'.
  assert (Hne : message_id AC1_Checksum <> message_id AC2_Checksum)
    by (simpl; lia).
  assert (H : Set_AC2_Checksum f (F32.of_Z 255) = Some (true, f'))
    by (vm_compute; reflexivity).
  split; [exact Hne|]. split; [exact H|].
  split; [vm_compute; reflexivity|].
  exact (set_other_message_blocks_get AC1_Checksum AC2_Checksum f f'
           (F32.of_Z 255) S754_nan Hne H).
Defined.

(** X8.  No accessor indexes the payload outside [data[0..7]] or shifts by
    a count that is negative or not below the width of [int]: in every
    loop of the file the index [i] is at most 15, [byte_pos] is between 0
    and 7, and [bit_pos] between 0 and 14. *)
Theorem accessor_indices_in_bounds (s : signal) (i : Z) :
  In s signal_table -> 0 <= i < bit_length s ->
  i <= 15 /\ 0 <= byte_pos s i <= 7 /\ 0 <= bit_pos s i <= 14.
Proof.
  intros Hs Hi.
  destruct (signal_ok_spec s (signal_table_ok s Hs)) as (_ & Hb & Hbyte).
  assert (Hlen : forallb (fun s => bit_length s <=? 16) signal_table = true)
    by (vm_compute; reflexivity).
  rewrite forallb_forall in Hlen. specialize (Hlen s Hs).
  apply Z.leb_le in Hlen.
  pose proof (bit_pos_nonneg s i ltac:(lia) ltac:(lia)).
  split; [lia|]. split; [apply Hbyte, Hi|lia].
Qed.

Lemma accessor_indices_in_bounds_witness :
  0 <= 15 < bit_length EMS11_N_SoakTime
  /\ 15 <= 15
  /\ 0 <= byte_pos EMS11_N_SoakTime 15 <= 7
  /\ 0 <= bit_pos EMS11_N_SoakTime 15 <= 14.
Proof.
  assert (H : 0 <= 15 < bit_length EMS11_N_SoakTime) by (simpl; lia).
  split; [exact H|].
  refine (accessor_indices_in_bounds EMS11_N_SoakTime 15 _ H).
  in_table.
Defined.

(** X9.  The getter of the evaporator temperature never succeeds: on every
    well-formed frame it returns [false].  Its loop can assemble only the
    raw values 0, 1, 256 and 257; [(raw_value * 1) + -40] is evaluated in
    [uint64_t], so the first two become values near [2 ^ 64], and the other
    two give 216 and 217, above the upper bound 80. *)
Theorem Get_AC4_Front_EVAP_Temp_never_succeeds
    (f : CAN_Frame) (v0 : spec_float) :
  wf_frame f -> fst (Get_AC4_Front_EVAP_Temp f v0) = false.
Proof.
  intros Hwf. unfold Get_AC4_Front_EVAP_Temp, Get_signal.
  destruct (negb (id f =? message_id AC4_Front_EVAP_Temp)); [reflexivity|].
  cbv zeta.
  assert (Hs : In AC4_Front_EVAP_Temp signal_table) by in_table.
  pose proof (extract_raw_reachable AC4_Front_EVAP_Temp (data f)
                (signal_table_ok _ Hs) (wf_bytes f Hwf)) as Hr.
  assert (Hall : forallb (fun r => out_of_range AC4_Front_EVAP_Temp
                                     (physical_of_raw AC4_Front_EVAP_Temp r))
                         (reachable_raws AC4_Front_EVAP_Temp) = true)
    by (vm_compute; reflexivity).
  rewrite forallb_forall in Hall. rewrite (Hall _ Hr). reflexivity.
Qed.

Lemma Get_AC4_Front_EVAP_Temp_never_succeeds_witness :
  let f := {| id := 0x57C; dlc := 8;
              data := [0; 0; 0; 0; 0x80; 0x80; 0; 0] |} in
  wf_frame f /\ fst (Get_AC4_Front_EVAP_Temp f S754_nan) = false.
Proof.
  intros f. assert (Hwf : wf_frame f) by frame_wf.
  split; [exact Hwf|].
  exact (Get_AC4_Front_EVAP_Temp_never_succeeds f S754_nan Hwf).
Defined.

(** X10.  For every signal other than [TBOX1_St_CLM] and
    [AC4_Front_EVAP_Temp] the range test of the getter never fails: on a
    well-formed frame with the identifier of the message the getter returns
    [true], whatever the payload is. *)
Theorem get_succeeds_on_matching_id
    (s : signal) (f : CAN_Frame) (v0 : spec_float) :
  In s signal_table -> s <> TBOX1_St_CLM -> s <> AC4_Front_EVAP_Temp ->
  wf_frame f -> id f = message_id s ->
  fst (Get_signal s f v0) = true.
Proof.
  intros Hs H1 H2 Hwf Hid. rewrite (Get_signal_id s f v0 Hid). cbn [fst].
  pose proof (extract_raw_reachable s (data f) (signal_table_ok s Hs)
                (wf_bytes f Hwf)) as Hr.
  destruct (reachable_raw_facts s _ Hs Hr) as (Hout & _).
  destruct (out_of_range s (physical_of_raw s (extract_raw s (data f))));
    [|reflexivity].
  destruct (Hout eq_refl); contradiction.
Qed.

Lemma get_succeeds_on_matching_id_witness :
  let f := {| id := 0x322; dlc := 0;
              data := [0xFF; 0xFF; 0xFF; 0xFF; 0xFF; 0xFF; 0xFF; 0xFF] |} in
  fst (Get_EMS11_N_SoakTime f S754_nan) = true.
Proof.
  intros f.
  apply (get_succeeds_on_matching_id EMS11_N_SoakTime f S754_nan).
  - in_table.
  - intros E. apply (f_equal message_id) in E. discriminate E.
  - intros E. apply (f_equal message_id) in E. discriminate E.
  - frame_wf.
  - reflexivity.
Defined.

(** X11.  The getter of [TBOX1_St_CLM] (two bits, upper bound 2) fails its
    range test exactly for the raw value 3: on a well-formed frame of
    message 0x478 it returns [true] unless bits 1 and 2 of [data[2]] are
    both set. *)
Theorem Get_TBOX1_St_CLM_fails_iff_raw_3 (f : CAN_Frame) (v0 : spec_float) :
  wf_frame f -> id f = 0x478 ->
  fst (Get_TBOX1_St_CLM f v0)
  = negb (Z.testbit (load (data f) 2) 1 && Z.testbit (load (data f) 2) 2).
Proof.
  intros Hwf Hid. unfold Get_TBOX1_St_CLM.
  rewrite (Get_signal_id TBOX1_St_CLM f v0 Hid). cbn [fst].
  assert (Hs : In TBOX1_St_CLM signal_table) by in_table.
  pose proof (extract_raw_reachable TBOX1_St_CLM (data f)
                (signal_table_ok _ Hs) (wf_bytes f Hwf)) as Hr.
  pose proof (extract_raw_testbit TBOX1_St_CLM (data f) 0
                ltac:(simpl; lia) ltac:(simpl; lia) ltac:(lia)) as H0.
  pose proof (extract_raw_testbit TBOX1_St_CLM (data f) 1
                ltac:(simpl; lia) ltac:(simpl; lia) ltac:(lia)) as H1.
  change (byte_pos TBOX1_St_CLM 0) with 2 in H0.
  change (bit_pos TBOX1_St_CLM 0) with 1 in H0.
  change (byte_pos TBOX1_St_CLM 1) with 2 in H1.
  change (bit_pos TBOX1_St_CLM 1) with 2 in H1.
  change (0 <? bit_length TBOX1_St_CLM) with true in H0.
  change (1 <? bit_length TBOX1_St_CLM) with true in H1.
  cbn [andb] in H0, H1. rewrite <- H0, <- H1.
  change (reachable_raws TBOX1_St_CLM) with [0; 2; 1; 3] in Hr.
  destruct Hr as [<-|[<-|[<-|[<-|[]]]]]; vm_compute; reflexivity.
Qed.

Lemma Get_TBOX1_St_CLM_fails_iff_raw_3_witness :
  let f := {| id := 0x478; dlc := 8;
              data := [0; 0; 0x06; 0; 0; 0; 0; 0] |} in
  fst (Get_TBOX1_St_CLM f S754_nan)
  = negb (Z.testbit (load (data f) 2) 1 && Z.testbit (load (data f) 2) 2)
  /\ fst (Get_TBOX1_St_CLM f S754_nan) = false.
Proof.
  intros f. split; [|vm_compute; reflexivity].
  apply (Get_TBOX1_St_CLM_fails_iff_raw_3 f S754_nan).
  - frame_wf.
  - reflexivity.
Defined.

(** X12.  The three outcomes of a setter.  For every [float] argument
    exactly one of the following holds: the value is between the bounds and
    the setter returns [true]; the value is below the lower or above the
    upper bound (both infinities are) and the setter returns [false] with
    the frame unchanged; the value is a NaN, both comparisons of the range
    test are false, and the conversion to [uint64_t] is undefined. *)
Theorem set_outcome (s : signal) (f : CAN_Frame) (v : spec_float) :
  In s signal_table -> F32.valid v = true ->
  (in_range s v = true /\ out_of_range s v = false
   /\ exists f', Set_signal s f v = Some (true, f'))
  \/ (in_range s v = false /\ out_of_range s v = true
      /\ Set_signal s f v = Some (false, f))
  \/ (v = S754_nan /\ in_range s v = false /\ out_of_range s v = false
      /\ Set_signal s f v = None).
Proof.
  intros Hs Hv.
  assert (Hdec : v = S754_nan \/ v <> S754_nan)
    by (destruct v; [right|right|left|right]; congruence).
  destruct Hdec as [->|Hn].
  - right. right. split; [reflexivity|].
    pose proof (Set_signal_nan s f Hs) as Hnan.
    assert (Hall : forallb (fun s => negb (in_range s S754_nan)
                                     && negb (out_of_range s S754_nan))
                           signal_table = true) by (vm_compute; reflexivity).
    rewrite forallb_forall in Hall. specialize (Hall s Hs).
    apply andb_prop in Hall as [H1 H2].
    apply Bool.negb_true_iff in H1. apply Bool.negb_true_iff in H2. auto.
  - pose proof (in_range_negb_out s v (signal_table_fp_ok s Hs) Hv Hn) as Hio.
    destruct (out_of_range s v) eqn:Ho; cbn [negb] in Hio.
    + right. left. repeat split; try assumption.
      apply Set_signal_rejects; assumption.
    + left. repeat split; try assumption.
      destruct (Set_signal_accepts s v (signal_table_fp_ok s Hs) Hv Hio)
        as (raw & _ & Hset).
      eexists. apply Hset.
Qed.

Lemma set_outcome_witness :
  F32.valid (S754_infinity false) = true
  /\ in_range AC2_N_InsideCarTemp (S754_infinity false) = false
  /\ Set_AC2_N_InsideCarTemp sample_frame (S754_infinity false)
     = Some (false, sample_frame).
Proof.
  assert (Hs : In AC2_N_InsideCarTemp signal_table) by in_table.
  assert (Hv : F32.valid (S754_infinity false) = true) by reflexivity.
  split; [exact Hv|].
  destruct (set_outcome AC2_N_InsideCarTemp sample_frame (S754_infinity false)
              Hs Hv) as [(H1 & _)|[(H1 & _ & H3)|(H1 & _)]].
  - vm_compute in H1. discriminate H1.
  - split; [exact H1|exact H3].
  - discriminate H1.
Defined.

(** X13.  Decoding what was just encoded.  After a successful setter call
    on a well-formed frame the getter of the same signal assembles the raw
    value of the setter reduced to the bits of [walk_mask], and writes the
    physical value of that; except for [TBOX1_St_CLM] and
    [AC4_Front_EVAP_Temp] it returns [true]. *)
Theorem set_then_get
    (s : signal) (f f1 : CAN_Frame) (v v0 : spec_float) :
  In s signal_table -> wf_frame f ->
  Set_signal s f v = Some (true, f1) ->
  exists raw,
    raw_of_physical s v = Some raw
    /\ extract_raw s (data f1) = Z.land raw (walk_mask s)
    /\ Get_signal s f1 v0
       = (negb (out_of_range s (physical_of_raw s (Z.land raw (walk_mask s)))),
          physical_of_raw s (Z.land raw (walk_mask s)))
    /\ (s <> TBOX1_St_CLM -> s <> AC4_Front_EVAP_Temp ->
        out_of_range s (physical_of_raw s (Z.land raw (walk_mask s))) = false).
Proof.
  intros Hs Hwf H.
  pose proof (Set_signal_wf s f f1 v Hs Hwf H) as Hwf1.
  apply Set_signal_true in H as (raw & Hraw & ->).
  exists raw. split; [assumption|]. cbn [data] in *.
  assert (Hx : extract_raw s (insert_raw s raw (data f))
               = Z.land raw (walk_mask s))
    by (apply extract_insert_raw;
        [apply signal_table_ok, Hs|apply Hwf|apply Hwf]).
  split; [exact Hx|]. split.
  - rewrite Get_signal_id by reflexivity. cbn [data]. rewrite Hx. reflexivity.
  - intros H1 H2.
    pose proof (extract_raw_reachable s _ (signal_table_ok s Hs)
                  (wf_bytes _ Hwf1)) as Hr.
    cbn [data] in Hr. rewrite Hx in Hr.
    destruct (reachable_raw_facts s _ Hs Hr) as (Hout & _).
    destruct (out_of_range s (physical_of_raw s (Z.land raw (walk_mask s))));
      [|reflexivity].
    destruct (Hout eq_refl); contradiction.
Qed.

Lemma set_then_get_witness :
  let f1 := {| id := 0x46C; dlc := 8;
               data := [0x11; 0x22; 0xB3; 0x44; 0x55; 0x66; 0x77; 0x88] |} in
  Set_AC2_N_InsideCarTemp sample_frame (float_of_decimal 215 1)
  = Some (true, f1)
  /\ exists raw,
       raw_of_physical AC2_N_InsideCarTemp (float_of_decimal 215 1) = Some raw
       /\ extract_raw AC2_N_InsideCarTemp (data f1)
          = Z.land raw (walk_mask AC2_N_InsideCarTemp)
       /\ Get_AC2_N_InsideCarTemp f1 S754_nan
          = (negb (out_of_range AC2_N_InsideCarTemp
                     (physical_of_raw AC2_N_InsideCarTemp
                        (Z.land raw (walk_mask AC2_N_InsideCarTemp)))),
             physical_of_raw AC2_N_InsideCarTemp
               (Z.land raw (walk_mask AC2_N_InsideCarTemp)))
       /\ (AC2_N_InsideCarTemp <> TBOX1_St_CLM ->
           AC2_N_InsideCarTemp <> AC4_Front_EVAP_Temp ->
           out_of_range AC2_N_InsideCarTemp
             (physical_of_raw AC2_N_InsideCarTemp
                (Z.land raw (walk_mask AC2_N_InsideCarTemp))) = false).
Proof.
  intros f1.
  assert (H : Set_AC2_N_InsideCarTemp sample_frame (float_of_decimal 215 1)
              = Some (true, f1)) by (vm_compute; reflexivity).
  split; [exact H|].
  refine (set_then_get AC2_N_InsideCarTemp sample_frame f1
            (float_of_decimal 215 1) S754_nan _ _ H).
  - in_table.
  - frame_wf.
Defined.

(** X14.  What a successful setter stores: for every loop index [i] whose
    position is a bit of a byte, that payload bit is bit [i] of the raw
    value computed from the argument. *)
Theorem set_writes_raw_bits
    (s : signal) (f f1 : CAN_Frame) (v : spec_float) :
  In s signal_table -> length (data f) = 8%nat ->
  Set_signal s f v = Some (true, f1) ->
  exists raw,
    raw_of_physical s v = Some raw
    /\ forall i, 0 <= i < bit_length s -> bit_pos s i < 8 ->
         Z.testbit (load (data f1) (byte_pos s i)) (bit_pos s i)
         = Z.testbit raw i.
Proof.
  intros Hs Hlen H. apply Set_signal_true in H as (raw & Hraw & ->).
  exists raw. split; [assumption|]. intros i Hi Hp. cbn [data].
  destruct (signal_ok_spec s (signal_table_ok s Hs)) as (_ & Hb & Hbyte).
  apply insert_raw_bit_at; try lia.
  rewrite Hlen. specialize (Hbyte i Hi). lia.
Qed.

Lemma set_writes_raw_bits_witness :
  let f1 := {| id := 0x347; dlc := 8;
               data := [0x11; 0x22; 0x33; 0x44; 0x55; 0x56; 0x77; 0x88] |} in
  Set_AUDIO7_St_BlowerSpdSetVoiceControl sample_frame (F32.of_Z 10)
  = Some (true, f1)
  /\ exists raw,
       raw_of_physical AUDIO7_St_BlowerSpdSetVoiceControl (F32.of_Z 10)
       = Some raw
       /\ forall i,
            0 <= i < bit_length AUDIO7_St_BlowerSpdSetVoiceControl ->
            bit_pos AUDIO7_St_BlowerSpdSetVoiceControl i < 8 ->
            Z.testbit
              (load (data f1) (byte_pos AUDIO7_St_BlowerSpdSetVoiceControl i))
              (bit_pos AUDIO7_St_BlowerSpdSetVoiceControl i)
            = Z.testbit raw i.
Proof.
  intros f1.
  assert (H : Set_AUDIO7_St_BlowerSpdSetVoiceControl sample_frame (F32.of_Z 10)
              = Some (true, f1)) by (vm_compute; reflexivity).
  split; [exact H|].
  refine (set_writes_raw_bits AUDIO7_St_BlowerSpdSetVoiceControl sample_frame
            f1 (F32.of_Z 10) _ _ H).
  - in_table.
  - reflexivity.
Defined.

(** X15.  Round trip of a raw value for the 35 signals whose walk stays in
    the byte it starts in ([base_bit + bit_length <= 8]): the physical value
    of a raw value below [2 ^ bit_length], when it is in range, is encoded
    successfully into any well-formed frame, and the getter then assembles
    the same raw value and returns [true] with the same physical value. *)
Theorem raw_roundtrip_in_byte
    (s : signal) (f : CAN_Frame) (r : Z) (v0 : spec_float) :
  In s signal_table -> stays_in_byte s = true -> wf_frame f ->
  0 <= r < 2 ^ bit_length s ->
  in_range s (physical_of_raw s r) = true ->
  exists f1,
    Set_signal s f (physical_of_raw s r) = Some (true, f1)
    /\ raw_of_physical s (physical_of_raw s r) = Some r
    /\ extract_raw s (data f1) = r
    /\ Get_signal s f1 v0 = (true, physical_of_raw s r).
Proof.
  intros Hs Hstay Hwf Hr Hin.
  destruct (roundtrip_in_byte s f r v0 Hs Hstay Hwf Hr Hin)
    as (f1 & Hset & Hx & Hget).
  exists f1. repeat split; try assumption.
  pose proof Hset as Hset'.
  apply Set_signal_true in Hset' as (raw & Hraw & ->).
  cbn [data] in Hx.
  rewrite extract_insert_raw in Hx;
    [|apply signal_table_ok, Hs|apply Hwf|apply Hwf].
  pose proof raw_of_physical_of_raw_table as H.
  rewrite forallb_forall in H. specialize (H s Hs).
  rewrite Hstay in H. rewrite forallb_forall in H.
  specialize (H r (proj2 (in_loop_range _ r) Hr)).
  rewrite Hin, Hraw in H. apply Z.eqb_eq in H. congruence.
Qed.

Lemma raw_roundtrip_in_byte_witness :
  stays_in_byte AC1_St_FlowMode = true
  /\ in_range AC1_St_FlowMode (physical_of_raw AC1_St_FlowMode 5) = true
  /\ exists f1,
       Set_AC1_St_FlowMode sample_frame (physical_of_raw AC1_St_FlowMode 5)
       = Some (true, f1)
       /\ raw_of_physical AC1_St_FlowMode (physical_of_raw AC1_St_FlowMode 5)
          = Some 5
       /\ extract_raw AC1_St_FlowMode (data f1) = 5
       /\ Get_AC1_St_FlowMode f1 S754_nan
          = (true, physical_of_raw AC1_St_FlowMode 5).
Proof.
  assert (H1 : stays_in_byte AC1_St_FlowMode = true) by reflexivity.
  assert (H2 : in_range AC1_St_FlowMode (physical_of_raw AC1_St_FlowMode 5)
               = true) by (vm_compute; reflexivity).
  split; [exact H1|]. split; [exact H2|].
  refine (raw_roundtrip_in_byte AC1_St_FlowMode sample_frame 5 S754_nan
            _ H1 _ _ H2).
  - in_table.
  - frame_wf.
  - simpl. lia.
Defined.

(** X16.  A setter does not disturb the other signals of its message: if
    the frame already carries the message, then for every other signal of
    that message the getter returns the same flag and value after the call
    as before it. *)
Theorem set_preserves_other_getters
    (a b : signal) (f f' : CAN_Frame) (v v0 : spec_float) :
  In a signal_table -> In b signal_table -> a <> b ->
  message_id a = message_id b -> wf_frame f -> id f = message_id a ->
  Set_signal a f v = Some (true, f') ->
  Get_signal b f' v0 = Get_signal b f v0.
Proof.
  intros Ha Hb Hne Hid Hwf Hf H.
  assert (Hdis : spans_disjoint b a = true)
    by (apply table_pair_disjoint; auto).
  apply Set_signal_true in H as (raw & _ & ->).
  rewrite !Get_signal_id by (cbn [id]; congruence). cbn [data].
  rewrite (extract_insert_disjoint b a raw (data f));
    [reflexivity|apply signal_table_ok, Hb|apply signal_table_ok, Ha
    |assumption|apply Hwf].
Qed.

Lemma set_preserves_other_getters_witness :
  let f := {| id := 0x374; dlc := 8;
              data := [0; 0; 0; 0xE0; 0xA0; 0; 0; 0] |} in
  let f' := {| id := 0x374; dlc := 8;
               data := [0; 0; 0; 0x60; 0xA0; 0; 0; 0] |} in
  Set_AUDIO4_S_TempLevelElectricAC f (F32.of_Z 3) = Some (true, f')
  /\ Get_AUDIO4_St_SetBlower f' S754_nan = Get_AUDIO4_St_SetBlower f S754_nan.
Proof.
  intros f f'.
  assert (H : Set_AUDIO4_S_TempLevelElectricAC f (F32.of_Z 3)
              = Some (true, f')) by (vm_compute; reflexivity).
  split; [exact H|].
  refine (set_preserves_other_getters AUDIO4_S_TempLevelElectricAC
            AUDIO4_St_SetBlower f f' (F32.of_Z 3) S754_nan _ _ _ _ _ _ H).
  - in_table.
  - in_table.
  - intros E. apply (f_equal base_byte) in E. discriminate E.
  - reflexivity.
  - frame_wf.
  - reflexivity.
Defined.


